(** * The sidecar HTTP proxy of package [proxy]: a shallow embedding

    The development follows the Go package file by file: the identity
    parser of [util.go], the status monitor of [status.go], the transport
    pool of [pool.go] and the round-tripper of the proxy server.  Go values
    are modelled as they are written: strings are byte strings, [int] is
    [Z], a [map[string]T] is a [gmap string T] (with [None] for the nil
    map), a [(T, error)] result is a pair whose second component is [None]
    for a nil error, and the calls that leave the package (name resolution,
    the gRPC status query, the default HTTP transport) are fields of an
    environment acting on an abstract world. *)

From Stdlib Require Import ZArith String Ascii DecimalString.
From stdpp Require Import gmap strings list.

Local Open Scope string_scope.

(** ** Go library functions used by the package *)

(** A Go [error]: [None] is [nil], [Some msg] an error whose [Error()]
    text is [msg]. *)
Definition error : Type := option string.

(** [strings.Count(s, sep)] for a one-byte separator. *)
Fixpoint strings_Count (s : string) (sep : ascii) : nat :=
  match s with
  | EmptyString => 0
  | String c s' =>
      if Ascii.eqb c sep then S (strings_Count s' sep) else strings_Count s' sep
  end.

(** [strings.Split(s, sep)] for a one-byte separator, which is how both
    call sites of the package use it (["."] and [":"]).  The result always
    has at least one element; the empty string splits into one empty
    segment. *)
Fixpoint strings_Split (s : string) (sep : ascii) : list string :=
  match s with
  | EmptyString => [EmptyString]
  | String c s' =>
      if Ascii.eqb c sep then EmptyString :: strings_Split s' sep
      else match strings_Split s' sep with
           | [] => [String c EmptyString]
           | x :: xs => String c x :: xs
           end
  end.

(** [strings.Join(elems, sep)]. *)
Fixpoint strings_Join (elems : list string) (sep : string) : string :=
  match elems with
  | [] => EmptyString
  | [x] => x
  | x :: xs => x +:+ sep +:+ strings_Join xs sep
  end.

(** [fmt.Sprintf] with the verb [%d] (and [%v] on an integer). *)
Definition fmt_d (n : Z) : string := NilZero.string_of_int (Z.to_int n).

(** ** util.go: the identity parser *)

Record resolvedAppID : Type := mkResolvedAppID {
  Original : string;
  Namespace : string;
  AppID : string
}.

(** The zero value [resolvedAppID{}]. *)
Definition resolvedAppID_zero : resolvedAppID :=
  mkResolvedAppID EmptyString EmptyString EmptyString.

Definition resolveTargetAppID (namespace original : string)
  : resolvedAppID * error :=
  let items := strings_Split original "." in
  match items with
  | [_] => (mkResolvedAppID original namespace original, None)
  | [item0; item1] => (mkResolvedAppID original item1 item0, None)
  | _ => (resolvedAppID_zero, Some ("invalid app id " +:+ original))
  end.

(** ** status.go: the status monitor *)

Record ServerStatus : Type := mkServerStatus {
  Enabled : bool;
  Port : Z
}.

(** The monitor's mutex is taken and released inside each method, so a
    method is one atomic step on the protected field and the monitor is
    modelled by that field. *)
Record statusMonitor : Type := mkStatusMonitor {
  status : ServerStatus
}.

(** [&statusMonitor{}]: the status starts at the zero value. *)
Definition NewStatusMonitor : statusMonitor :=
  mkStatusMonitor (mkServerStatus false 0).

Definition SetStatus (s : statusMonitor) (st : ServerStatus) : statusMonitor :=
  mkStatusMonitor st.

Definition Status (s : statusMonitor) : ServerStatus := status s.

(** ** pool.go: the transport pool *)

(** [type addressProcessor func(key string) (string, error)]. *)
Definition addressProcessor : Type := string -> string * error.

(** The [*http.Transport] built by [Get]: its [DialContext] closure captures
    the address it was created for. *)
Record Transport : Type := mkTransport {
  dial_addr : string
}.

(** The closure: the address handed in by the HTTP layer is ignored and the
    captured one is dialled.  The result names the dial that is made. *)
Definition DialContext (t : Transport) (network _addr : string)
  : string * string :=
  (network, dial_addr t).

(** A pointer to a transport is its index in the store of allocated
    transports; two pointers are the same instance iff they are equal. *)
Definition TransportPtr : Type := nat.

Record pool : Type := mkPool {
  transports : option (gmap string TransportPtr)
}.

(** The pool together with the transports allocated so far. *)
Record PoolStore : Type := mkPoolStore {
  the_pool : pool;
  heap : list Transport
}.

(** The zero value [pool{}], the map still nil, nothing allocated. *)
Definition PoolStore_zero : PoolStore := mkPoolStore (mkPool None) [].

(** [pool.Get].  The whole body runs under the pool's mutex, so a call is
    one atomic step on the store.  [ap] is not used by the body. *)
Definition pool_Get (addr : string) (ap : addressProcessor) (ps : PoolStore)
  : (TransportPtr * error) * PoolStore :=
  let m := match transports (the_pool ps) with
           | None => ∅
           | Some m => m
           end in
  match m !! addr with
  | Some t => ((t, None), mkPoolStore (mkPool (Some m)) (heap ps))
  | None =>
      let t := length (heap ps) in
      ((t, None),
       mkPoolStore (mkPool (Some (<[addr := t]> m)))
                   (heap ps ++ [mkTransport addr]))
  end.

(** A sequence of [Get] calls, as any interleaving of callers serialised by
    the mutex produces. *)
Fixpoint pool_Gets (calls : list (string * addressProcessor)) (ps : PoolStore)
  : PoolStore :=
  match calls with
  | [] => ps
  | (addr, ap) :: rest => pool_Gets rest (pool_Get addr ap ps).2
  end.

(** The map of a pool, the nil map read as empty (as Go reads it). *)
Definition pool_map (ps : PoolStore) : gmap string TransportPtr :=
  default ∅ (transports (the_pool ps)).

(** What holds of every store the package can build: a cached pointer leads
    to a transport that dials its key, and every allocated transport is the
    one cached under the address it dials. *)
Definition pool_inv (ps : PoolStore) : Prop :=
  (forall a t, pool_map ps !! a = Some t -> heap ps !! t = Some (mkTransport a))
  /\ (forall i T, heap ps !! i = Some T -> pool_map ps !! dial_addr T = Some i).

(** ** Types of the packages the server talks to *)

(** [nameresolution.ResolveRequest], with the fields the server sets. *)
Module nr.
Record ResolveRequest : Type := mkResolveRequest {
  ID : string;
  Namespace : string;
  Port : Z
}.
End nr.

(** Modelled from the spec: the messages of the proxy status RPC
    ([internalv1pb], generated code that is not part of the sources at
    hand).  The request carries a protocol-version tag, the response is
    [{ enabled: bool, port: int }]. *)
Module internalv1pb.
Inductive APIVersion : Type := APIVersion_V1.
Record ProxyStatusRequest : Type := mkProxyStatusRequest {
  Ver : APIVersion
}.
Record ProxyStatusResponse : Type := mkProxyStatusResponse {
  Enabled : bool;
  Port : Z
}.
End internalv1pb.

(** Modelled from the spec: the error body of [daprhttp], a JSON object
    [{ errorCode: string, message: string }]; [NewErrorResponse] builds it
    from its two arguments. *)
Module daprhttp.
Record ErrorResponse : Type := mkErrorResponse {
  ErrorCode : string;
  Message : string
}.
Definition NewErrorResponse (errorCode message : string) : ErrorResponse :=
  mkErrorResponse errorCode message.
End daprhttp.

(** [net/url] and [net/http]: the parts of a request and of a response
    that the server reads or writes. *)
Module url.
Record URL : Type := mkURL {
  Scheme : string;
  Host : string;
  Path : string;
  RawQuery : string
}.
End url.

Module http.
Record Request : Type := mkRequest {
  Method : string;
  URL : url.URL;
  Header : gmap string (list string);
  Body : string
}.
Record Response : Type := mkResponse {
  StatusCode : Z;
  RespHeader : gmap string (list string);
  RespBody : string
}.
End http.

(** ** The proxy server *)

Module Config.
Record ServerConfig : Type := mkServerConfig {
  ProxyPort : Z;
  ApplicationPort : Z;
  Namespace : string;
  AppID : string
}.
End Config.

(** A [logger.Logger] that has been created, identified by its name. *)
Inductive Logger : Type := mkLogger (name : string).

(** [var proxyLogger = logger.NewLogger(...)]. *)
Definition proxyLogger : Logger := mkLogger "dapr.runtime.proxy".

(** What a request's handling does outside the package, in order. *)
Inductive Event : Type :=
| EvResolve (rreq : nr.ResolveRequest)
| EvConnect (address id namespace : string) (skipTLS recreateIfExists enableSSL : bool)
| EvGetProxyStatus (req : internalv1pb.ProxyStatusRequest)
| EvForward (req : http.Request)
| EvLog (level msg : string).

(** The upstream network calls among the events. *)
Definition is_resolve (e : Event) : bool :=
  match e with EvResolve _ => true | _ => false end.
Definition is_connect (e : Event) : bool :=
  match e with EvConnect _ _ _ _ _ _ => true | _ => false end.
Definition is_status_query (e : Event) : bool :=
  match e with EvGetProxyStatus _ => true | _ => false end.
Definition is_forward (e : Event) : bool :=
  match e with EvForward _ => true | _ => false end.
Definition is_network_call (e : Event) : bool :=
  is_resolve e || is_connect e || is_status_query e || is_forward e.

(** How often an event of a kind occurs in a trace. *)
Definition count_events (k : Event -> bool) (tr : list Event) : nat :=
  length (List.filter k tr).

(** Every event of kind [k2] in the trace has an event of kind [k1]
    earlier in the trace. *)
Definition happens_before (k1 k2 : Event -> bool) (tr : list Event) : Prop :=
  forall i e, tr !! i = Some e -> k2 e = true ->
    exists j e', j < i /\ tr !! j = Some e' /\ k1 e' = true.

(** A pointer to a status monitor, into the store of monitors. *)
Definition MonitorPtr : Type := nat.

Section Dispatcher.

(** [W] is the state of everything outside the package (the network, the
    peers, the local application); [Conn] stands for [*grpc.ClientConn]. *)
Context {W Conn : Type}.

(** A run carries the outside world and the trace of events so far. *)
Record RunState : Type := mkRunState {
  world : W;
  trace : list Event
}.

(** A Go call either returns or panics. *)
Inductive Result (A : Type) : Type :=
| Returned (a : A)
| Panicked (msg : string).
Arguments Returned {A} a.
Arguments Panicked {A} msg.

Definition M (A : Type) : Type := RunState -> Result A * RunState.

Definition ret {A} (a : A) : M A := fun st => (Returned a, st).

Definition bind {A B} (c : M A) (k : A -> M B) : M B :=
  fun st =>
    match c st with
    | (Returned a, st') => k a st'
    | (Panicked msg, st') => (Panicked msg, st')
    end.

Definition panic {A} (msg : string) : M A := fun st => (Panicked msg, st).

(** An event is recorded when it happens. *)
Definition emit (e : Event) : M unit :=
  fun st => (Returned tt, mkRunState (world st) (trace st ++ [e])).

(** A call that leaves the package: it is recorded, then acts on the world. *)
Definition call {A} (e : Event) (f : W -> A * W) : M A :=
  fun st =>
    let '(a, w') := f (world st) in
    (Returned a, mkRunState w' (trace st ++ [e])).

Notation "'let*' p := c 'in' k" := (bind c (fun p => k))
  (at level 10, p pattern, c at level 100, k at level 200).

(** [messageClientConnection]: a function of [address], [id], [namespace],
    [skipTLS], [recreateIfExists] and [enableSSL] that returns a pointer to
    a client connection and an error. *)
Definition messageClientConnection : Type :=
  string -> string -> string -> bool -> bool -> bool ->
  W -> (option Conn * error) * W.

(** The calls into other packages that are not fields of the server:
    [json.Marshal] on an error body, [GetProxyStatus] of the generated
    proxy client on a connection, and [http.DefaultTransport.RoundTrip]. *)
Record Env : Type := mkEnv {
  json_Marshal : daprhttp.ErrorResponse -> string;
  GetProxyStatus :
    option Conn -> internalv1pb.ProxyStatusRequest ->
    W -> (internalv1pb.ProxyStatusResponse * error) * W;
  DefaultTransport_RoundTrip :
    http.Request -> W -> (option http.Response * error) * W
}.

(** The [server] struct.  [logger] is an interface value: [None] is nil. *)
Record server : Type := mkServer {
  config : Config.ServerConfig;
  monitor : MonitorPtr;
  resolver : nr.ResolveRequest -> W -> (string * error) * W;
  logger : option Logger;
  connectionCreatorFn : messageClientConnection
}.

(** [NewProxyServer]: the composite literal names four of the five fields;
    [logger] keeps its zero value. *)
Definition NewProxyServer (config : Config.ServerConfig) (monitor : MonitorPtr)
    (resolver : nr.ResolveRequest -> W -> (string * error) * W)
    (connectionCreatorFn : messageClientConnection) : server :=
  mkServer config monitor resolver None connectionCreatorFn.

(** A method call on the server's logger: on the nil interface it is a nil
    dereference, otherwise a line is logged. *)
Definition logger_log (l : option Logger) (level msg : string) : M unit :=
  match l with
  | None => panic "invalid memory address or nil pointer dereference"
  | Some _ => emit (EvLog level msg)
  end.

Variable E : Env.

(** [respondWithError]: the [code] argument is not used by the body, the
    status code is the literal 400. *)
Definition respondWithError (code : Z) (e : daprhttp.ErrorResponse)
  : http.Response :=
  let b := json_Marshal E e in
  http.mkResponse 400 {[ "Content-Type" := ["application/json"] ]} b.

(** The two assignments [req.URL.Scheme = ...; req.URL.Host = ...]. *)
Definition set_target (req : http.Request) (scheme host : string)
  : http.Request :=
  http.mkRequest (http.Method req)
    (url.mkURL scheme host (url.Path (http.URL req)) (url.RawQuery (http.URL req)))
    (http.Header req) (http.Body req).

Definition forward (req : http.Request) : M (option http.Response * error) :=
  call (EvForward req) (DefaultTransport_RoundTrip E req).

Definition getRemoteProxyAddress (s : server) (addr appID namespace : string)
  : M (string * error) :=
  let* (conn, err) := call (EvConnect addr appID namespace false false false)
                       (connectionCreatorFn s addr appID namespace false false false) in
  match err with
  | Some _ => ret (EmptyString, err)
  | None =>
      let req := internalv1pb.mkProxyStatusRequest internalv1pb.APIVersion_V1 in
      let* (status, err) := call (EvGetProxyStatus req) (GetProxyStatus E conn req) in
      match err with
      | Some _ => ret (EmptyString, err)
      | None =>
          if negb (internalv1pb.Enabled status)
          then ret (EmptyString, Some "remote proxy is not enabled")
          else
            let parts := strings_Split addr ":" in
            let parts := <[ length parts - 1 := fmt_d (internalv1pb.Port status) ]> parts in
            let combined := strings_Join parts ":" in
            ret (combined, None)
      end
  end.

Definition roundTripLocal (s : server) (req : http.Request)
  : M (option http.Response * error) :=
  let req := set_target req "http"
               ("localhost:" +:+ fmt_d (Config.ApplicationPort (config s))) in
  forward req.

Definition roundTripRemote (s : server) (req : http.Request) (appID : resolvedAppID)
  : M (option http.Response * error) :=
  let rreq := nr.mkResolveRequest (AppID appID) (Namespace appID)
                (Config.ProxyPort (config s)) in
  let* (addr, err) := call (EvResolve rreq) (resolver s rreq) in
  match err with
  | Some _ =>
      let msg := daprhttp.NewErrorResponse "ERR_UNRESOLVED_APPID"
                   ("the appid " +:+ Original appID +:+ " cannot be resolved to a destination") in
      let* _ := logger_log (logger s) "debug"
             ("request destination app-id could not be resolved: " +:+ Original appID) in
      ret (Some (respondWithError 400 msg), None)
  | None =>
      let* (addr, err) := getRemoteProxyAddress s addr (AppID appID) (Namespace appID) in
      match err with
      | Some _ =>
          let msg := daprhttp.NewErrorResponse "ERR_INTERNAL" "DERP" in
          let* _ := logger_log (logger s) "debug" "DERP" in
          ret (Some (respondWithError 500 msg), None)
      | None =>
          let req := set_target req "http" addr in
          forward req
      end
  end.

(** [appIDHeader[0]], read only after the length test has passed. *)
Definition index0 (l : list string) : string :=
  match l with
  | [] => EmptyString
  | x :: _ => x
  end.

Definition RoundTrip (s : server) (req : http.Request)
  : M (option http.Response * error) :=
  let lookup := http.Header req !! "Destination-App-Id" in
  let appIDHeader := default [] lookup in
  let ok := bool_decide (is_Some lookup) in
  if negb ok || negb (length appIDHeader =? 1)%nat
     || String.eqb (index0 appIDHeader) EmptyString
  then
    let msg := daprhttp.NewErrorResponse "ERR_MISSING_APPID"
                 "the appid must be specified using the Destination-App-Id header" in
    let* _ := logger_log (logger s) "debug"
           "request did not contain Destination-App-Id header" in
    ret (Some (respondWithError 400 msg), None)
  else
    let '(appID, err) := resolveTargetAppID (Config.Namespace (config s))
                           (index0 appIDHeader) in
    match err with
    | Some _ =>
        let msg := daprhttp.NewErrorResponse "ERR_MISSING_APPID"
                     ("the appid " +:+ index0 appIDHeader +:+ " is invalid") in
        let* _ := logger_log (logger s) "debug"
               ("request contained invalid Destination-App-Id header: "
                  +:+ index0 appIDHeader) in
        ret (Some (respondWithError 400 msg), None)
    | None =>
        if String.eqb (AppID appID) (Config.AppID (config s))
           && String.eqb (Namespace appID) (Config.Namespace (config s))
        then roundTripLocal s req
        else roundTripRemote s req appID
    end.

(** A run from a world with an empty trace. *)
Definition run {A} (c : M A) (w : W) : Result A * RunState :=
  c (mkRunState w []).

End Dispatcher.

Arguments Returned {A} a.
Arguments Panicked {A} msg.
Arguments RunState : clear implicits.
Arguments Env : clear implicits.
Arguments server : clear implicits.

(** The header is missing, has no value, has one empty value, or has more
    than one value. *)
Definition header_unusable (req : http.Request) : Prop :=
  let lookup := http.Header req !! "Destination-App-Id" in
  lookup = None \/ lookup = Some [] \/ lookup = Some [EmptyString]
  \/ exists l, lookup = Some l /\ 2 <= length l.

(** ** StartNonBlocking *)

(** Where the goroutine started by [StartNonBlocking] stands: before its
    [SetStatus] call, before its [ListenAndServe] call, inside
    [ListenAndServe] with the listener bound and serving, or, after
    [ListenAndServe] has returned the error [err], before the
    [s.logger.Fatalf] call on it. *)
Inductive GoroutinePC : Type :=
| AtSetStatus
| AtListenAndServe
| Serving
| AtFatalf (err : string).

(** How the process ends at the [Fatalf] call: an unrecovered panic when
    the logger is the nil interface, the fatal exit of the logger after
    its line is written otherwise. *)
Inductive ProcessEnd : Type :=
| Crashed (msg : string)
| FatalExit (line : string).

(** The process as far as startup is concerned: the status monitors that
    exist, the address the HTTP listener is bound to (if it is), the
    goroutine ([None] before [StartNonBlocking] has spawned it), and how
    the process has ended ([None] while it runs). *)
Record Process : Type := mkProcess {
  monitors : gmap MonitorPtr statusMonitor;
  listener : option string;
  goroutine : option GoroutinePC;
  ended : option ProcessEnd
}.

(** [StartNonBlocking] builds the reverse proxy value, spawns the goroutine
    and returns nil. *)
Definition StartNonBlocking {W Conn} (s : server W Conn) (p : Process)
  : error * Process :=
  (None, mkProcess (monitors p) (listener p) (Some AtSetStatus) (ended p)).

(** Modelled from the spec: [Fatalf] of the logger package, which is not
    among the sources at hand; a fatal startup error is fatal to the
    process, so the call writes its line and ends the process.  On the nil
    interface the call is a nil dereference instead, and a panic that no
    one recovers in a goroutine ends the process as well. *)
Definition logger_Fatalf (l : option Logger) (line : string) : ProcessEnd :=
  match l with
  | None => Crashed "invalid memory address or nil pointer dereference"
  | Some _ => FatalExit line
  end.

(** One statement of the goroutine's body.  [listen_err] is what binding
    the port gives: nil when [ListenAndServe] binds and serves (it does not
    return then), an error when it cannot.  A process that has ended takes
    no step. *)
Definition goroutine_step {W Conn} (s : server W Conn) (listen_err : error)
    (p : Process) : Process :=
  match ended p with
  | Some _ => p
  | None =>
      match goroutine p with
      | Some AtSetStatus =>
          let st := mkServerStatus true (Config.ProxyPort (config s)) in
          mkProcess (alter (fun m => SetStatus m st) (monitor s) (monitors p))
                    (listener p) (Some AtListenAndServe) None
      | Some AtListenAndServe =>
          match listen_err with
          | None =>
              mkProcess (monitors p)
                        (Some (":" +:+ fmt_d (Config.ProxyPort (config s))))
                        (Some Serving) None
          | Some err =>
              mkProcess (monitors p) (listener p) (Some (AtFatalf err)) None
          end
      | Some (AtFatalf err) =>
          mkProcess (monitors p) (listener p) (Some (AtFatalf err))
                    (Some (logger_Fatalf (logger s)
                             ("proxy serve error: " +:+ err)))
      | _ => p
      end
  end.

Fixpoint goroutine_steps {W Conn} (n : nat) (s : server W Conn)
    (listen_err : error) (p : Process) : Process :=
  match n with
  | O => p
  | S n' => goroutine_steps n' s listen_err (goroutine_step s listen_err p)
  end.

(** What a caller of [Status()] on the server's monitor observes; in a
    process that has ended there is no caller and nothing to observe. *)
Definition query_status {W Conn} (s : server W Conn) (p : Process)
  : option ServerStatus :=
  match ended p with
  | Some _ => None
  | None => Status <$> monitors p !! monitor s
  end.

(** A process in which the server's monitor is freshly made and nothing has
    been started. *)
Definition fresh_process {W Conn} (s : server W Conn) : Process :=
  mkProcess {[ monitor s := NewStatusMonitor ]} None None None.

(** ** Test doubles for concrete runs *)

Definition dquote : string := String (ascii_of_nat 34) EmptyString.

(** A stand-in for [json.Marshal] on an error body made of plain text. *)
Definition demo_json_Marshal (e : daprhttp.ErrorResponse) : string :=
  "{" +:+ dquote +:+ "errorCode" +:+ dquote +:+ ":" +:+ dquote
      +:+ daprhttp.ErrorCode e +:+ dquote +:+ ","
      +:+ dquote +:+ "message" +:+ dquote +:+ ":" +:+ dquote
      +:+ daprhttp.Message e +:+ dquote +:+ "}".

(** The world of the test doubles counts the calls made into it. *)
Definition demo_peer (st : internalv1pb.ProxyStatusResponse) (err : error)
  : Env nat unit :=
  mkEnv
    demo_json_Marshal
    (fun _ _ w => ((st, err), S w))
    (fun _ w => ((Some (http.mkResponse 200 ∅ "ok"), None), S w)).

Definition demo_resolver (addr : string) (err : error)
  : nr.ResolveRequest -> nat -> (string * error) * nat :=
  fun _ w => ((addr, err), S w).

Definition demo_connect (err : error)
  : string -> string -> string -> bool -> bool -> bool ->
    nat -> (option unit * error) * nat :=
  fun _ _ _ _ _ _ w =>
    ((match err with None => Some tt | Some _ => None end, err), S w).

Definition demo_config : Config.ServerConfig :=
  Config.mkServerConfig 3500 8080 "default" "frontend".

Definition demo_server (resolve_err connect_err : error) (l : option Logger)
  : server nat unit :=
  mkServer demo_config 0 (demo_resolver "10.0.0.5:3500" resolve_err) l
           (demo_connect connect_err).

Definition demo_request (hdr : gmap string (list string)) : http.Request :=
  http.mkRequest "GET" (url.mkURL "http" "sidecar:3501" "/orders" EmptyString)
                 hdr EmptyString.

(** A peer that serves on port 9000, and one whose proxy is off. *)
Definition peer_on : Env nat unit :=
  demo_peer (internalv1pb.mkProxyStatusResponse true 9000) None.
Definition peer_off : Env nat unit :=
  demo_peer (internalv1pb.mkProxyStatusResponse false 0) None.

Definition header_of (v : list string) : gmap string (list string) :=
  {[ "Destination-App-Id" := v ]}.

(** ** The two ways a run of the round-tripper ends *)

(** The run ended in the default transport: after the events [pre] the
    request, retargeted to scheme [http] and some host, was forwarded, and
    the result of the transport is the result of the run. *)
Definition forwarded {W Conn} (E : Env W Conn) (req : http.Request)
    (pre : list Event)
    (out : Result (option http.Response * error) * RunState W) : Prop :=
  exists (host : string) (wpre : W),
    let req' := set_target req "http" host in
    out = (Returned (DefaultTransport_RoundTrip E req' wpre).1,
           mkRunState (DefaultTransport_RoundTrip E req' wpre).2
                      (pre ++ [EvForward req'])).

(** The run ended before the transport: nothing was forwarded, and the
    outcome is a panic at the log call when the server has no logger and a
    response built by [respondWithError] with a nil error when it has one. *)
Definition rejected {W Conn} (E : Env W Conn) (s : server W Conn)
    (out : Result (option http.Response * error) * RunState W) : Prop :=
  count_events is_forward (trace out.2) = 0
  /\ match logger s with
     | None => exists msg, out.1 = Panicked msg
     | Some _ =>
         exists code e, out.1 = Returned (Some (respondWithError E code e), None)
     end.
(** * Properties *)

(** ** Splitting and joining *)

Lemma string_app_cons (x : ascii) (a b : string) :
  String x a +:+ b = String x (a +:+ b).
Proof. reflexivity. Qed.

Lemma string_app_assoc (a b c : string) : (a +:+ b) +:+ c = a +:+ b +:+ c.
Proof.
  induction a as [|x a IH]; [reflexivity|].
  by rewrite !string_app_cons, IH.
Qed.

Section SplitJoin.
Variable sep : ascii.

Lemma strings_Split_not_nil (s : string) : strings_Split s sep ≠ [].
Proof.
  destruct s as [|c s]; simpl; [discriminate|].
  destruct (Ascii.eqb c sep); [discriminate|].
  destruct (strings_Split s sep); discriminate.
Qed.

(** [Split] returns one segment more than there are separators. *)
Lemma strings_Split_length (s : string) :
  length (strings_Split s sep) = S (strings_Count s sep).
Proof.
  induction s as [|c s IH]; simpl; [reflexivity|].
  destruct (Ascii.eqb c sep); simpl; [by rewrite IH|].
  destruct (strings_Split s sep) as [|x xs] eqn:Hs; simpl in *; lia.
Qed.

Lemma strings_Split_no_sep (s : string) :
  strings_Count s sep = 0 -> strings_Split s sep = [s].
Proof.
  induction s as [|c s IH]; simpl; [reflexivity|].
  destruct (Ascii.eqb c sep); [discriminate|].
  intros H. by rewrite (IH H).
Qed.

Lemma strings_Split_app (a b : string) :
  strings_Count a sep = 0 ->
  strings_Split (a +:+ String sep b) sep = a :: strings_Split b sep.
Proof.
  induction a as [|c a IH]; simpl.
  - intros _. by rewrite Ascii.eqb_refl.
  - destruct (Ascii.eqb c sep); [discriminate|].
    intros H. by rewrite (IH H).
Qed.

(** A string with a separator in it splits at its first one. *)
Lemma strings_Count_pos_split (s : string) :
  0 < strings_Count s sep ->
  exists a b, s = a +:+ String sep b /\ strings_Count a sep = 0
              /\ strings_Count s sep = S (strings_Count b sep).
Proof.
  induction s as [|c s IH]; simpl; [lia|].
  destruct (Ascii.eqb c sep) eqn:Hc.
  - intros _. apply Ascii.eqb_eq in Hc as ->.
    by exists EmptyString, s.
  - intros H. destruct (IH H) as (a & b & -> & Ha & Hb).
    exists (String c a), b. simpl. by rewrite Hc.
Qed.

Lemma strings_Count_app (a b : string) :
  strings_Count (a +:+ b) sep = strings_Count a sep + strings_Count b sep.
Proof.
  induction a as [|c a IH]; simpl; [reflexivity|].
  destruct (Ascii.eqb c sep); simpl; by rewrite IH.
Qed.

Lemma strings_Join_cons2 (a b : string) (l : list string) (j : string) :
  strings_Join (a :: b :: l) j = a +:+ j +:+ strings_Join (b :: l) j.
Proof. reflexivity. Qed.

(** Joining what was split gives the string back. *)
Lemma strings_Join_Split (s : string) :
  strings_Join (strings_Split s sep) (String sep EmptyString) = s.
Proof.
  induction s as [|c s IH]; simpl; [reflexivity|].
  destruct (Ascii.eqb c sep) eqn:Hc.
  - apply Ascii.eqb_eq in Hc as ->.
    destruct (strings_Split s sep) as [|x xs] eqn:Hs.
    + by destruct (strings_Split_not_nil s).
    + rewrite strings_Join_cons2, IH. reflexivity.
  - destruct (strings_Split s sep) as [|x xs] eqn:Hs.
    + by destruct (strings_Split_not_nil s).
    + rewrite <- IH. destruct xs; [reflexivity|].
      by rewrite !strings_Join_cons2.
Qed.

(** Splitting distributes over a separator. *)
Lemma strings_Split_app_sep (a b : string) :
  strings_Split (a +:+ String sep b) sep
  = (strings_Split a sep ++ strings_Split b sep)%list.
Proof.
  induction a as [|c a IH]; simpl.
  - by rewrite Ascii.eqb_refl.
  - rewrite IH. destruct (Ascii.eqb c sep); [reflexivity|].
    destruct (strings_Split a sep) as [|x xs] eqn:Hs; [|reflexivity].
    by destruct (strings_Split_not_nil a).
Qed.

Lemma strings_Join_snoc (l : list string) (x j : string) :
  l ≠ [] -> strings_Join (l ++ [x])%list j = strings_Join l j +:+ j +:+ x.
Proof.
  induction l as [|a l IH]; [done|]. intros _.
  destruct l as [|b l]; [reflexivity|].
  change ((a :: b :: l) ++ [x])%list with (a :: b :: (l ++ [x]))%list.
  rewrite !strings_Join_cons2.
  change (b :: l ++ [x])%list with ((b :: l) ++ [x])%list.
  rewrite IH by discriminate.
  by rewrite !string_app_assoc.
Qed.

(** Overwriting the last segment of [host:port] and joining again replaces
    the port and leaves the host, colons inside it included. *)
Lemma strings_replace_last (host port x : string) :
  strings_Count port sep = 0 ->
  let parts := strings_Split (host +:+ String sep port) sep in
  strings_Join (<[ length parts - 1 := x ]> parts) (String sep EmptyString)
  = host +:+ String sep x.
Proof.
  intros Hp parts. subst parts.
  rewrite strings_Split_app_sep, (strings_Split_no_sep _ Hp).
  rewrite length_app. simpl.
  replace (length (strings_Split host sep) + 1 - 1)
    with (length (strings_Split host sep) + 0) by lia.
  rewrite insert_app_r. simpl.
  rewrite strings_Join_snoc by apply strings_Split_not_nil.
  by rewrite strings_Join_Split.
Qed.

End SplitJoin.

(** ** The identity parser *)

(** C2. Parsing a raw identity with the caller's namespace [ns]: with no
    dot the result is [{original: raw, namespace: ns, identity: raw}]; with
    exactly one dot, [raw] is [before.after] and the result is
    [{original: raw, namespace: after, identity: before}]; with two or more
    dots the result is an error whose text carries [raw]. *)
Theorem resolveTargetAppID_spec (ns raw : string) :
  (strings_Count raw "." = 0 ->
     resolveTargetAppID ns raw = (mkResolvedAppID raw ns raw, None))
  /\ (strings_Count raw "." = 1 ->
        exists before after,
          raw = before +:+ "." +:+ after
          /\ strings_Count before "." = 0 /\ strings_Count after "." = 0
          /\ resolveTargetAppID ns raw
             = (mkResolvedAppID raw after before, None))
  /\ (2 <= strings_Count raw "." ->
        resolveTargetAppID ns raw
        = (resolvedAppID_zero, Some ("invalid app id " +:+ raw))).
Proof.
  split; [|split].
  - intros H. unfold resolveTargetAppID.
    by rewrite (strings_Split_no_sep _ _ H).
  - intros H.
    destruct (strings_Count_pos_split "." raw) as (a & b & Hraw & Ha & Hb);
      [lia|].
    exists a, b. rewrite H in Hb. injection Hb as Hb. symmetry in Hb.
    repeat split; try done.
    unfold resolveTargetAppID. rewrite Hraw at 1.
    by rewrite (strings_Split_app _ _ _ Ha), (strings_Split_no_sep _ _ Hb).
  - intros H. unfold resolveTargetAppID.
    pose proof (strings_Split_length "." raw) as Hlen.
    destruct (strings_Split raw ".") as [|x [|y [|z l]]]; simpl in Hlen;
      try lia; reflexivity.
Qed.

Lemma resolveTargetAppID_spec_witness :
  resolveTargetAppID "default" "backend"
    = (mkResolvedAppID "backend" "default" "backend", None)
  /\ (exists before after,
        "backend.prod" = before +:+ "." +:+ after
        /\ strings_Count before "." = 0 /\ strings_Count after "." = 0
        /\ resolveTargetAppID "default" "backend.prod"
           = (mkResolvedAppID "backend.prod" after before, None))
  /\ resolveTargetAppID "default" "a.b.c"
     = (resolvedAppID_zero, Some "invalid app id a.b.c").
Proof.
  split; [|split].
  - apply (resolveTargetAppID_spec "default" "backend"). reflexivity.
  - apply (resolveTargetAppID_spec "default" "backend.prod"). reflexivity.
  - apply (resolveTargetAppID_spec "default" "a.b.c"). simpl. lia.
Defined.

(** The concrete parses. *)
Example resolveTargetAppID_one_dot :
  resolveTargetAppID "default" "backend.prod"
  = (mkResolvedAppID "backend.prod" "prod" "backend", None).
Proof. reflexivity. Qed.

Example resolveTargetAppID_empty :
  resolveTargetAppID "default" EmptyString
  = (mkResolvedAppID EmptyString "default" EmptyString, None).
Proof. reflexivity. Qed.

(** ** The transport pool *)

Lemma pool_inv_zero : pool_inv PoolStore_zero.
Proof. split; intros ? ?; cbn; by rewrite ?lookup_empty, ?lookup_nil. Qed.

Lemma pool_Get_hit (addr : string) (ap : addressProcessor) (ps : PoolStore)
    (t : TransportPtr) :
  pool_map ps !! addr = Some t ->
  pool_Get addr ap ps
  = ((t, None), mkPoolStore (mkPool (Some (pool_map ps))) (heap ps)).
Proof.
  unfold pool_Get, pool_map. destruct ps as [[[m|]] h]; cbn; intros H.
  - by rewrite H.
  - by rewrite lookup_empty in H.
Qed.

Lemma pool_Get_miss (addr : string) (ap : addressProcessor) (ps : PoolStore) :
  pool_map ps !! addr = None ->
  pool_Get addr ap ps
  = ((length (heap ps), None),
     mkPoolStore (mkPool (Some (<[addr := length (heap ps)]> (pool_map ps))))
                 (heap ps ++ [mkTransport addr])).
Proof.
  unfold pool_Get, pool_map. destruct ps as [[[m|]] h]; cbn; intros H.
  - by rewrite H.
  - reflexivity.
Qed.

Lemma pool_Get_inv (addr : string) (ap : addressProcessor) (ps : PoolStore) :
  pool_inv ps -> pool_inv (pool_Get addr ap ps).2.
Proof.
  intros [Hm Hh]. destruct (pool_map ps !! addr) as [t|] eqn:Hl.
  - rewrite (pool_Get_hit _ _ _ _ Hl). split; cbn; auto.
  - rewrite (pool_Get_miss _ _ _ Hl). split; cbn.
    + intros a t. unfold pool_map. cbn. rewrite lookup_insert.
      case_decide as Ha.
      * intros [= <-]. subst a. by rewrite list_lookup_middle.
      * intros H. apply Hm in H. by apply lookup_app_l_Some.
    + intros i T Hi. unfold pool_map. cbn.
      apply lookup_app_Some in Hi as [Hi|[Hge Hi]].
      * pose proof (Hh _ _ Hi) as Hc.
        rewrite lookup_insert_ne; [exact Hc|]. intros Heq.
        rewrite <- Heq in Hc. discriminate (eq_trans (eq_sym Hc) Hl).
      * destruct (i - length (heap ps)) as [|k] eqn:Hk; [|done].
        injection Hi as <-. cbn. rewrite lookup_insert_eq.
        f_equal. lia.
Qed.

Lemma pool_Gets_inv (calls : list (string * addressProcessor)) (ps : PoolStore) :
  pool_inv ps -> pool_inv (pool_Gets calls ps).
Proof.
  revert ps. induction calls as [|[a ap] calls IH]; intros ps H; [done|].
  cbn. apply IH. by apply pool_Get_inv.
Qed.

(** [Get] leaves the map allocated and never changes or drops an entry. *)
Lemma pool_Get_keeps (addr a : string) (ap : addressProcessor) (ps : PoolStore)
    (t : TransportPtr) :
  pool_map ps !! a = Some t ->
  transports (the_pool (pool_Get addr ap ps).2)
    = Some (pool_map (pool_Get addr ap ps).2)
  /\ pool_map (pool_Get addr ap ps).2 !! a = Some t.
Proof.
  intros Ha. destruct (pool_map ps !! addr) as [t'|] eqn:Hl.
  - rewrite (pool_Get_hit _ _ _ _ Hl). by cbn.
  - rewrite (pool_Get_miss _ _ _ Hl). unfold pool_map. cbn. split; [done|].
    rewrite lookup_insert_ne; [exact Ha|]. intros Heq.
    rewrite <- Heq in Ha. discriminate (eq_trans (eq_sym Ha) Hl).
Qed.

Lemma pool_Gets_keeps (calls : list (string * addressProcessor)) (a : string)
    (ps : PoolStore) (t : TransportPtr) :
  transports (the_pool ps) = Some (pool_map ps) ->
  pool_map ps !! a = Some t ->
  transports (the_pool (pool_Gets calls ps)) = Some (pool_map (pool_Gets calls ps))
  /\ pool_map (pool_Gets calls ps) !! a = Some t.
Proof.
  revert ps. induction calls as [|[b ap] calls IH]; intros ps Hs Ha; [done|].
  cbn. destruct (pool_Get_keeps b a ap ps t Ha) as [H1 H2]. by apply IH.
Qed.

(** After [Get addr], the map is allocated and holds the returned pointer
    under [addr]. *)
Lemma pool_Get_cached (addr : string) (ap : addressProcessor) (ps : PoolStore) :
  transports (the_pool (pool_Get addr ap ps).2)
    = Some (pool_map (pool_Get addr ap ps).2)
  /\ pool_map (pool_Get addr ap ps).2 !! addr = Some (pool_Get addr ap ps).1.1.
Proof.
  destruct (pool_map ps !! addr) as [t|] eqn:Hl.
  - rewrite (pool_Get_hit _ _ _ _ Hl). by cbn.
  - rewrite (pool_Get_miss _ _ _ Hl). unfold pool_map. cbn.
    by rewrite lookup_insert_eq.
Qed.

Lemma pool_inv_NoDup (ps : PoolStore) :
  pool_inv ps -> NoDup (dial_addr <$> heap ps).
Proof.
  intros [_ Hh]. apply NoDup_alt. intros i j a Hi Hj.
  rewrite list_lookup_fmap in Hi, Hj.
  destruct (heap ps !! i) as [Ti|] eqn:Ei; [|done].
  destruct (heap ps !! j) as [Tj|] eqn:Ej; [|done].
  cbn in Hi, Hj. injection Hi as Hi. injection Hj as Hj.
  apply Hh in Ei, Ej. rewrite Hi in Ei. rewrite Hj in Ej. congruence.
Qed.

(** C8. In any store built by [Get] calls from the zero pool: a later
    [Get] of an address, whatever its resolver argument and whatever calls
    came in between, returns the very pointer the first [Get] of that
    address returned and leaves the store as it is; that pointer leads to
    the transport made for the address; and no two transports of the store
    dial the same address. *)
Theorem pool_Get_same_instance
    (history between : list (string * addressProcessor))
    (addr : string) (r r' : addressProcessor) :
  let s0 := pool_Gets history PoolStore_zero in
  let first := pool_Get addr r s0 in
  let s2 := pool_Gets between first.2 in
  let later := pool_Get addr r' s2 in
  later.1.1 = first.1.1
  /\ later.2 = s2
  /\ heap later.2 !! first.1.1 = Some (mkTransport addr)
  /\ NoDup (dial_addr <$> heap later.2).
Proof.
  intros s0 first s2 later.
  assert (Hinv0 : pool_inv s0) by apply pool_Gets_inv, pool_inv_zero.
  assert (Hinv2 : pool_inv s2) by by apply pool_Gets_inv, pool_Get_inv.
  destruct (pool_Get_cached addr r s0) as [Hs1 Hc1]. fold first in Hs1, Hc1.
  destruct (pool_Gets_keeps between addr first.2 first.1.1 Hs1 Hc1)
    as [Hs2 Hc2]. fold s2 in Hs2, Hc2.
  assert (Hlater : later = ((first.1.1, None), s2)).
  { unfold later. rewrite (pool_Get_hit _ _ _ _ Hc2).
    f_equal. destruct s2 as [[m] h]. cbn in *. by rewrite Hs2. }
  rewrite Hlater. cbn. repeat split.
  - by apply Hinv2.
  - by apply pool_inv_NoDup.
Qed.

(** C10. The result of [Get], pointer and store alike, is the same for any
    two address processors, and the error it returns is nil. *)
Theorem pool_Get_ignores_addressProcessor
    (addr : string) (ap1 ap2 : addressProcessor) (ps : PoolStore) :
  pool_Get addr ap1 ps = pool_Get addr ap2 ps
  /\ (pool_Get addr ap1 ps).1.2 = None.
Proof.
  split; [reflexivity|].
  unfold pool_Get. by destruct (_ !! addr).
Qed.

(** Concurrent first calls are calls in some order: two of them for
    ["host:1"] make one transport. *)
Example pool_Get_twice :
  let ap : addressProcessor := fun k => (k, None) in
  let s := pool_Gets [("host:1", ap); ("host:1", ap)] PoolStore_zero in
  heap s = [mkTransport "host:1"]
  /\ (pool_Get "host:1" ap s).1 = (0, None).
Proof. split; vm_compute; reflexivity. Qed.

(** ** The round-tripper *)

Section DispatcherProps.
Context {W Conn : Type} (E : Env W Conn).
Implicit Types (s : server W Conn) (req : http.Request) (w : W).

(** The header test of [RoundTrip] lets a single non-empty value through. *)
Lemma RoundTrip_dispatch s req (h : string) (appID : resolvedAppID) :
  http.Header req !! "Destination-App-Id" = Some [h] ->
  h ≠ EmptyString ->
  resolveTargetAppID (Config.Namespace (config s)) h = (appID, None) ->
  RoundTrip E s req
  = if String.eqb (AppID appID) (Config.AppID (config s))
       && String.eqb (Namespace appID) (Config.Namespace (config s))
    then roundTripLocal E s req
    else roundTripRemote E s req appID.
Proof.
  intros Hh Hne Hp. unfold RoundTrip. rewrite Hh. cbn.
  destruct (String.eqb h EmptyString) eqn:He.
  - apply String.eqb_eq in He. contradiction.
  - by rewrite Hp.
Qed.

(** C3. A request whose header parses to this process's own identity and
    namespace is forwarded once through the default transport, with the
    URL scheme set to [http] and the host to [localhost:<ApplicationPort>]
    and nothing else of the request changed; the response and error of the
    transport are returned as they are, and the run makes no name
    resolution call and no peer discovery call. *)
Theorem RoundTrip_local s req (h : string) (appID : resolvedAppID) w :
  http.Header req !! "Destination-App-Id" = Some [h] ->
  h ≠ EmptyString ->
  resolveTargetAppID (Config.Namespace (config s)) h = (appID, None) ->
  AppID appID = Config.AppID (config s) ->
  Namespace appID = Config.Namespace (config s) ->
  exists req',
    url.Scheme (http.URL req') = "http"
    /\ url.Host (http.URL req')
       = "localhost:" +:+ fmt_d (Config.ApplicationPort (config s))
    /\ url.Path (http.URL req') = url.Path (http.URL req)
    /\ url.RawQuery (http.URL req') = url.RawQuery (http.URL req)
    /\ http.Method req' = http.Method req
    /\ http.Header req' = http.Header req
    /\ http.Body req' = http.Body req
    /\ run (RoundTrip E s req) w
       = (Returned (DefaultTransport_RoundTrip E req' w).1,
          mkRunState (DefaultTransport_RoundTrip E req' w).2 [EvForward req'])
    /\ count_events is_resolve (trace (run (RoundTrip E s req) w).2) = 0
    /\ count_events is_connect (trace (run (RoundTrip E s req) w).2) = 0
    /\ count_events is_status_query (trace (run (RoundTrip E s req) w).2) = 0.
Proof.
  intros Hh Hne Hp Hid Hns.
  rewrite (RoundTrip_dispatch s req h appID Hh Hne Hp), Hid, Hns.
  rewrite !String.eqb_refl. cbn.
  exists (set_target req "http"
            ("localhost:" +:+ fmt_d (Config.ApplicationPort (config s)))).
  unfold run, roundTripLocal, forward, call. cbn.
  destruct (DefaultTransport_RoundTrip E _ w) as [r w'].
  repeat split; reflexivity.
Qed.

(** *** Peer discovery *)

(** C5. When the channel to the peer opens and the peer answers the status
    query with [enabled = true], discovery on an address [host:port] (the
    port being the segment after the last colon) returns [host] with the
    port the peer reported, after one connect and one status query. *)
Theorem getRemoteProxyAddress_enabled s (host port appID namespace : string)
    (conn : option Conn) (st : internalv1pb.ProxyStatusResponse) (w w1 w2 : W) :
  let addr := host +:+ ":" +:+ port in
  let sreq := internalv1pb.mkProxyStatusRequest internalv1pb.APIVersion_V1 in
  strings_Count port ":" = 0 ->
  connectionCreatorFn s addr appID namespace false false false w
    = ((conn, None), w1) ->
  GetProxyStatus E conn sreq w1 = ((st, None), w2) ->
  internalv1pb.Enabled st = true ->
  run (getRemoteProxyAddress E s addr appID namespace) w
  = (Returned (host +:+ ":" +:+ fmt_d (internalv1pb.Port st), None),
     mkRunState w2 [EvConnect addr appID namespace false false false;
                    EvGetProxyStatus sreq]).
Proof.
  intros addr sreq Hport Hconn Hst Hen.
  unfold run, getRemoteProxyAddress, bind, call, ret. cbn.
  fold addr. rewrite Hconn. cbn. fold sreq. rewrite Hst. cbn.
  rewrite Hen. cbn. do 3 f_equal.
  exact (strings_replace_last ":" host port _ Hport).
Qed.

(** The peer-disabled case of discovery: an error, after one connect and
    one status query. *)
Lemma getRemoteProxyAddress_disabled s (addr appID namespace : string)
    (conn : option Conn) (st : internalv1pb.ProxyStatusResponse) (w w1 w2 : W) :
  let sreq := internalv1pb.mkProxyStatusRequest internalv1pb.APIVersion_V1 in
  connectionCreatorFn s addr appID namespace false false false w
    = ((conn, None), w1) ->
  GetProxyStatus E conn sreq w1 = ((st, None), w2) ->
  internalv1pb.Enabled st = false ->
  run (getRemoteProxyAddress E s addr appID namespace) w
  = (Returned (EmptyString, Some "remote proxy is not enabled"),
     mkRunState w2 [EvConnect addr appID namespace false false false;
                    EvGetProxyStatus sreq]).
Proof.
  intros sreq Hconn Hst Hen.
  unfold run, getRemoteProxyAddress, bind, call, ret. cbn.
  rewrite Hconn. cbn. fold sreq. rewrite Hst. cbn. by rewrite Hen.
Qed.

(** *** The remote path *)

Local Ltac run_remote :=
  unfold run, roundTripRemote, getRemoteProxyAddress, forward, logger_log,
    bind, call, emit, panic, ret; cbn.

Local Ltac after_first k :=
  let i := fresh "i" in let e := fresh "e" in
  let Hi := fresh "Hi" in let Hk := fresh "Hk" in
  intros i e Hi Hk;
  destruct i as [|[|[|[|i]]]]; cbn in Hi;
  try discriminate Hi;
  try (injection Hi as <-; discriminate Hk);
  try (exists k; eexists; split; [lia|split; reflexivity]).

(** C4. On the remote path the run starts with one name resolution call,
    for the parsed identity, namespace and this proxy's port, and makes no
    other.  When that call succeeds, peer discovery runs once and before
    any forward: the next event is the connect that opens it on the
    resolved address, the only connect; when the connect succeeds the event
    after it is the status query, the only one; and a forward is made
    exactly when the query succeeds and reports the peer enabled, as the
    one event after the query, to the address discovery returned.  The
    calls that leave the package are, in order, exactly these. *)
Theorem RoundTrip_remote_call_order s req (h : string) (appID : resolvedAppID) w :
  let rreq := nr.mkResolveRequest (AppID appID) (Namespace appID)
                (Config.ProxyPort (config s)) in
  let sreq := internalv1pb.mkProxyStatusRequest internalv1pb.APIVersion_V1 in
  let tr := trace (run (RoundTrip E s req) w).2 in
  let res := resolver s rreq w in
  let addr := res.1.1 in
  let con := connectionCreatorFn s addr (AppID appID) (Namespace appID)
               false false false res.2 in
  let sta := GetProxyStatus E con.1.1 sreq con.2 in
  let parts := strings_Split addr ":" in
  let corrected :=
    strings_Join (<[ length parts - 1 := fmt_d (internalv1pb.Port sta.1.1) ]> parts)
                 ":" in
  http.Header req !! "Destination-App-Id" = Some [h] ->
  h ≠ EmptyString ->
  resolveTargetAppID (Config.Namespace (config s)) h = (appID, None) ->
  ~ (AppID appID = Config.AppID (config s)
     /\ Namespace appID = Config.Namespace (config s)) ->
  tr !! 0 = Some (EvResolve rreq)
  /\ count_events is_resolve tr = 1
  /\ ((resolver s rreq w).1.2 = None ->
        tr !! 1 = Some (EvConnect (resolver s rreq w).1.1 (AppID appID)
                          (Namespace appID) false false false)
        /\ count_events is_connect tr = 1
        /\ count_events is_status_query tr <= 1
        /\ count_events is_forward tr <= 1
        /\ happens_before is_connect is_forward tr)
  /\ ((resolver s rreq w).1.2 <> None ->
        count_events is_connect tr = 0
        /\ count_events is_status_query tr = 0
        /\ count_events is_forward tr = 0)
  /\ happens_before is_status_query is_forward tr
  /\ (res.1.2 = None -> con.1.2 = None ->
        tr !! 2 = Some (EvGetProxyStatus sreq)
        /\ count_events is_status_query tr = 1)
  /\ (res.1.2 = None -> con.1.2 <> None ->
        count_events is_status_query tr = 0
        /\ count_events is_forward tr = 0)
  /\ (count_events is_forward tr = 1
      <-> res.1.2 = None /\ con.1.2 = None /\ sta.1.2 = None
          /\ internalv1pb.Enabled sta.1.1 = true)
  /\ List.filter is_network_call tr
     = EvResolve rreq
       :: match res.1.2 with
          | Some _ => []
          | None =>
              EvConnect addr (AppID appID) (Namespace appID) false false false
              :: match con.1.2 with
                 | Some _ => []
                 | None =>
                     EvGetProxyStatus sreq
                     :: match sta.1.2 with
                        | Some _ => []
                        | None =>
                            if internalv1pb.Enabled sta.1.1
                            then [EvForward (set_target req "http" corrected)]
                            else []
                        end
                 end
          end.
Proof.
  intros rreq sreq tr res addr con sta parts corrected Hh Hne Hp Hremote.
  subst tr corrected parts sta con addr res.
  rewrite (RoundTrip_dispatch s req h appID Hh Hne Hp).
  destruct (String.eqb (AppID appID) (Config.AppID (config s))
            && String.eqb (Namespace appID) (Config.Namespace (config s)))
    eqn:Hcmp.
  { apply andb_true_iff in Hcmp as [H1 H2].
    apply String.eqb_eq in H1, H2. by destruct Hremote. }
  clear Hcmp. run_remote. fold rreq.
  destruct (resolver s rreq w) as [[addr [e|]] w1]; cbn.
  { destruct (logger s); cbn; repeat split; try done; try lia;
      try (by after_first 1); by intros (? & _). }
  destruct (connectionCreatorFn s addr (AppID appID) (Namespace appID)
              false false false w1) as [[conn [e|]] w2]; cbn.
  { destruct (logger s); cbn; repeat split; try done; try lia;
      try (by after_first 1); by intros (_ & ? & _). }
  fold sreq.
  destruct (GetProxyStatus E conn sreq w2) as [[pst [e|]] w3]; cbn.
  { destruct (logger s); cbn; repeat split; try done; try lia;
      try (by after_first 1); by intros (_ & _ & ? & _). }
  destruct (internalv1pb.Enabled pst) eqn:Hen; cbn.
  - destruct (DefaultTransport_RoundTrip E _ w3) as [r w4]; cbn.
    repeat split; try done; try lia;
      try (by after_first 1); by after_first 2.
  - destruct (logger s); cbn; repeat split; try done; try lia;
      try (by after_first 1); by intros (_ & _ & _ & ?).
Qed.

(** C6. On the remote path, when name resolution succeeds, the channel to
    the peer opens and the peer answers the status query with
    [enabled = false], discovery returns an error and the run of the
    request contains no forward. *)
Theorem roundTripRemote_peer_disabled s req (appID : resolvedAppID)
    (addr : string) (conn : option Conn)
    (pst : internalv1pb.ProxyStatusResponse) (w w1 w2 w3 : W) :
  let rreq := nr.mkResolveRequest (AppID appID) (Namespace appID)
                (Config.ProxyPort (config s)) in
  let sreq := internalv1pb.mkProxyStatusRequest internalv1pb.APIVersion_V1 in
  resolver s rreq w = ((addr, None), w1) ->
  connectionCreatorFn s addr (AppID appID) (Namespace appID) false false false w1
    = ((conn, None), w2) ->
  GetProxyStatus E conn sreq w2 = ((pst, None), w3) ->
  internalv1pb.Enabled pst = false ->
  run (getRemoteProxyAddress E s addr (AppID appID) (Namespace appID)) w1
  = (Returned (EmptyString, Some "remote proxy is not enabled"),
     mkRunState w3
       [EvConnect addr (AppID appID) (Namespace appID) false false false;
        EvGetProxyStatus sreq])
  /\ count_events is_forward
       (trace (run (roundTripRemote E s req appID) w).2) = 0
  /\ world (run (roundTripRemote E s req appID) w).2 = w3.
Proof.
  intros rreq sreq Hres Hconn Hst Hen. split.
  - by apply (getRemoteProxyAddress_disabled s _ _ _ conn pst w1 w2 w3).
  - run_remote. fold rreq. rewrite Hres. cbn. rewrite Hconn. cbn.
    fold sreq. rewrite Hst. cbn. rewrite Hen. cbn.
    by destruct (logger s).
Qed.

(** Discovery does not look at the trace it extends. *)
Lemma getRemoteProxyAddress_frame s (addr appID namespace : string) w
    (tr0 : list Event) :
  getRemoteProxyAddress E s addr appID namespace (mkRunState w tr0)
  = ((run (getRemoteProxyAddress E s addr appID namespace) w).1,
     mkRunState (world (run (getRemoteProxyAddress E s addr appID namespace) w).2)
       (tr0 ++ trace (run (getRemoteProxyAddress E s addr appID namespace) w).2)).
Proof.
  unfold run, getRemoteProxyAddress, bind, call, ret. cbn.
  destruct (connectionCreatorFn s addr appID namespace false false false w)
    as [[conn [e|]] w1]; cbn; [reflexivity|].
  destruct (GetProxyStatus E conn _ w1) as [[pst [e|]] w2]; cbn;
    [by rewrite <- app_assoc|].
  destruct (internalv1pb.Enabled pst); cbn; by rewrite <- app_assoc.
Qed.

(** What the remote path answers when discovery fails, for whatever reason,
    on a server that has a logger: the response built by
    [respondWithError], whose status code is 400, with the body for
    [ERR_INTERNAL], and a nil error. *)
Lemma roundTripRemote_discovery_failure s req (appID : resolvedAppID)
    (addr a e : string) (lg : Logger) (w w1 : W) (st' : RunState W) :
  let rreq := nr.mkResolveRequest (AppID appID) (Namespace appID)
                (Config.ProxyPort (config s)) in
  resolver s rreq w = ((addr, None), w1) ->
  run (getRemoteProxyAddress E s addr (AppID appID) (Namespace appID)) w1
    = (Returned (a, Some e), st') ->
  logger s = Some lg ->
  run (roundTripRemote E s req appID) w
  = (Returned
       (Some (http.mkResponse 400 {[ "Content-Type" := ["application/json"] ]}
                (json_Marshal E (daprhttp.NewErrorResponse "ERR_INTERNAL" "DERP"))),
        None),
     mkRunState (world st')
                (EvResolve rreq :: trace st' ++ [EvLog "debug" "DERP"])).
Proof.
  intros rreq Hres Hdisc Hlg.
  unfold run, roundTripRemote, bind, call. cbn. fold rreq. rewrite Hres. cbn.
  rewrite getRemoteProxyAddress_frame, Hdisc. cbn.
  unfold logger_log, emit, ret. rewrite Hlg. reflexivity.
Qed.

(** The same run on a server whose logger is nil panics at the log call. *)
Lemma roundTripRemote_discovery_failure_nil_logger s req
    (appID : resolvedAppID) (addr a e : string) (w w1 : W) (st' : RunState W) :
  let rreq := nr.mkResolveRequest (AppID appID) (Namespace appID)
                (Config.ProxyPort (config s)) in
  resolver s rreq w = ((addr, None), w1) ->
  run (getRemoteProxyAddress E s addr (AppID appID) (Namespace appID)) w1
    = (Returned (a, Some e), st') ->
  logger s = None ->
  run (roundTripRemote E s req appID) w
  = (Panicked "invalid memory address or nil pointer dereference",
     mkRunState (world st') (EvResolve rreq :: trace st')).
Proof.
  intros rreq Hres Hdisc Hlg.
  unfold run, roundTripRemote, bind, call. cbn. fold rreq. rewrite Hres. cbn.
  rewrite getRemoteProxyAddress_frame, Hdisc. cbn.
  unfold logger_log, panic. rewrite Hlg. reflexivity.
Qed.

(** *** The header test *)

(** With an unusable header, a server that has a logger answers with the
    response of [respondWithError] for [ERR_MISSING_APPID], status code
    400, and a nil error; the world is untouched and the trace holds the
    log line alone. *)
Lemma RoundTrip_header_unusable s req (lg : Logger) w :
  header_unusable req ->
  logger s = Some lg ->
  run (RoundTrip E s req) w
  = (Returned
       (Some (http.mkResponse 400 {[ "Content-Type" := ["application/json"] ]}
                (json_Marshal E
                   (daprhttp.NewErrorResponse "ERR_MISSING_APPID"
                      "the appid must be specified using the Destination-App-Id header"))),
        None),
     mkRunState w
       [EvLog "debug" "request did not contain Destination-App-Id header"]).
Proof.
  intros Hbad Hlg. unfold run, RoundTrip.
  destruct Hbad as [H|[H|[H|(l & H & Hl)]]]; rewrite H; cbn.
  1-3: unfold bind, logger_log, emit, ret; by rewrite Hlg.
  destruct l as [|x [|y l]]; cbn in Hl; try lia. cbn.
  unfold bind, logger_log, emit, ret; by rewrite Hlg.
Qed.

(** With an unusable header, a server whose logger is nil panics at the log
    call, before any response is built; nothing outside has been called. *)
Lemma RoundTrip_header_unusable_nil_logger s req w :
  header_unusable req ->
  logger s = None ->
  run (RoundTrip E s req) w
  = (Panicked "invalid memory address or nil pointer dereference",
     mkRunState w []).
Proof.
  intros Hbad Hlg. unfold run, RoundTrip.
  destruct Hbad as [H|[H|[H|(l & H & Hl)]]]; rewrite H; cbn.
  1-3: unfold bind, logger_log, panic; by rewrite Hlg.
  destruct l as [|x [|y l]]; cbn in Hl; try lia. cbn.
  unfold bind, logger_log, panic; by rewrite Hlg.
Qed.

End DispatcherProps.

(** ** Startup *)

Section Startup.
Context {W Conn : Type}.
Implicit Types (s : server W Conn) (p : Process).

Lemma goroutine_steps_done (n : nat) s (listen_err : error) p :
  (ended p = None -> goroutine p = Some Serving) ->
  goroutine_steps n s listen_err p = p.
Proof.
  intros H. induction n as [|n IH]; [reflexivity|]. cbn.
  replace (goroutine_step s listen_err p) with p; [exact IH|].
  unfold goroutine_step. destruct (ended p); [reflexivity|].
  by rewrite H.
Qed.

(** C9, as the code has it. [StartNonBlocking] returns nil and leaves the
    rest to its goroutine, whose first statement publishes
    [{enabled: true, port: ProxyPort}] and whose second binds the
    listener.  With a fresh monitor, a query sees the zero value exactly
    until that first statement has run and the published status after it,
    the listener being bound only once the second statement has succeeded;
    when binding fails the third statement, the fatal log call, ends the
    process, and nothing is observed after that. *)
Theorem StartNonBlocking_publishes_before_listen s (listen_err : error)
    (n : nat) :
  let started := StartNonBlocking s (fresh_process s) in
  let p := goroutine_steps n s listen_err started.2 in
  let published := mkServerStatus true (Config.ProxyPort (config s)) in
  started.1 = None
  /\ query_status s p
     = match n, listen_err with
       | 0, _ => Some (Status NewStatusMonitor)
       | S (S (S _)), Some _ => None
       | S _, _ => Some published
       end
  /\ listener p
     = match n, listen_err with
       | S (S _), None => Some (":" +:+ fmt_d (Config.ProxyPort (config s)))
       | _, _ => None
       end
  /\ ended p
     = match n, listen_err with
       | S (S (S _)), Some err =>
           Some (logger_Fatalf (logger s) ("proxy serve error: " +:+ err))
       | _, _ => None
       end.
Proof.
  cbn. split; [reflexivity|].
  destruct n as [|[|[|n]]]; cbn.
  - unfold query_status. cbn. by rewrite lookup_singleton_eq.
  - unfold query_status, goroutine_step. cbn.
    rewrite lookup_alter_eq, lookup_singleton_eq. by destruct listen_err.
  - unfold query_status, goroutine_step. cbn.
    destruct listen_err as [e|]; cbn;
      by rewrite lookup_alter_eq, lookup_singleton_eq.
  - destruct listen_err as [e|]; cbn.
    + rewrite goroutine_steps_done by (cbn; discriminate).
      unfold query_status. by cbn.
    + rewrite goroutine_steps_done by (cbn; auto).
      unfold query_status. cbn.
      by rewrite lookup_alter_eq, lookup_singleton_eq.
Qed.

End Startup.

(** ** Concrete runs *)

(** C9, as the claim states it, fails after the goroutine's first
    statement: the listener is not bound, and a query no longer sees the
    zero value but the published status. *)
Lemma StartNonBlocking_status_set_while_unbound :
  let s := demo_server None None (Some proxyLogger) in
  let p := goroutine_steps 1 s None (StartNonBlocking s (fresh_process s)).2 in
  listener p = None
  /\ query_status s p = Some (mkServerStatus true 3500)
  /\ ~ (listener p = None -> query_status s p = Some (Status NewStatusMonitor)).
Proof.
  cbn. repeat split. intros H. specialize (H eq_refl). discriminate H.
Qed.

(** When the port cannot be bound: after the second statement the status
    is published and the listener is not bound; the third statement ends
    the process, by the fatal exit of the logger or, on the server as
    built, by the panic of the nil logger. *)
Example StartNonBlocking_bind_failure :
  let s := demo_server None None (Some proxyLogger) in
  let as_built :=
    NewProxyServer demo_config 0 (demo_resolver "10.0.0.5:3500" None)
      (demo_connect None) in
  let run_of (srv : server nat unit) n :=
    goroutine_steps n srv (Some "address already in use")
      (StartNonBlocking srv (fresh_process srv)).2 in
  (listener (run_of s 2) = None
   /\ query_status s (run_of s 2) = Some (mkServerStatus true 3500))
  /\ ended (run_of s 3)
     = Some (FatalExit "proxy serve error: address already in use")
  /\ query_status s (run_of s 7) = None
  /\ ended (run_of as_built 3)
     = Some (Crashed "invalid memory address or nil pointer dereference").
Proof. cbn. repeat split. Qed.

(** A request for this process's own identity goes to the local
    application; the server needs no logger for it. *)
Lemma RoundTrip_local_witness :
  let s := demo_server None None None in
  let req := demo_request (header_of ["frontend"]) in
  exists req',
    url.Scheme (http.URL req') = "http"
    /\ url.Host (http.URL req') = "localhost:8080"
    /\ (run (RoundTrip peer_on s req) 0).1
       = Returned (Some (http.mkResponse 200 ∅ "ok"), None)
    /\ trace (run (RoundTrip peer_on s req) 0).2 = [EvForward req'].
Proof.
  intros s req.
  destruct (RoundTrip_local peer_on s req "frontend"
              (mkResolvedAppID "frontend" "default" "frontend") 0)
    as (req' & Hs & Hh & _ & _ & _ & _ & _ & Hrun & _);
    [reflexivity | discriminate | reflexivity | reflexivity | reflexivity |].
  exists req'. rewrite Hrun. repeat split; assumption.
Defined.

(** A request for [backend.prod]: resolve, connect, status query, forward. *)
Lemma RoundTrip_remote_call_order_witness :
  let s := demo_server None None None in
  let req := demo_request (header_of ["backend.prod"]) in
  let tr := trace (run (RoundTrip peer_on s req) 0).2 in
  tr !! 0 = Some (EvResolve (nr.mkResolveRequest "backend" "prod" 3500))
  /\ count_events is_resolve tr = 1
  /\ tr !! 1 = Some (EvConnect "10.0.0.5:3500" "backend" "prod" false false false)
  /\ count_events is_connect tr = 1
  /\ happens_before is_connect is_forward tr
  /\ happens_before is_status_query is_forward tr
  /\ tr !! 2 = Some (EvGetProxyStatus
                       (internalv1pb.mkProxyStatusRequest
                          internalv1pb.APIVersion_V1))
  /\ List.filter is_network_call tr
     = [EvResolve (nr.mkResolveRequest "backend" "prod" 3500);
        EvConnect "10.0.0.5:3500" "backend" "prod" false false false;
        EvGetProxyStatus
          (internalv1pb.mkProxyStatusRequest internalv1pb.APIVersion_V1);
        EvForward (set_target req "http" "10.0.0.5:9000")].
Proof.
  intros s req tr.
  destruct (RoundTrip_remote_call_order peer_on s req "backend.prod"
              (mkResolvedAppID "backend.prod" "prod" "backend") 0)
    as (H0 & H1 & H2 & _ & H6 & H7 & _ & _ & H8);
    [reflexivity | discriminate | reflexivity
    | intros [H _]; discriminate H |].
  destruct (H2 eq_refl) as (H3 & H4 & _ & _ & H5).
  destruct (H7 eq_refl eq_refl) as (H9 & _).
  repeat split; assumption.
Defined.

(** The address [10.0.0.5:3500] and a peer reporting
    [{enabled: true, port: 9000}] give [10.0.0.5:9000]. *)
Lemma getRemoteProxyAddress_enabled_witness :
  (run (getRemoteProxyAddress peer_on (demo_server None None None)
          "10.0.0.5:3500" "backend" "prod") 0).1
  = Returned ("10.0.0.5:9000", None).
Proof.
  pose proof (getRemoteProxyAddress_enabled peer_on
                (demo_server None None None)
                "10.0.0.5" "3500" "backend" "prod" (Some tt)
                (internalv1pb.mkProxyStatusResponse true 9000) 0 1 2) as H.
  cbv zeta in H.
  exact (f_equal fst (H eq_refl eq_refl eq_refl eq_refl)).
Defined.

(** A peer reporting [{enabled: false}]: discovery fails, nothing is
    forwarded, whether or not the server has a logger. *)
Lemma roundTripRemote_peer_disabled_witness :
  let s := demo_server None None None in
  let req := demo_request (header_of ["backend.prod"]) in
  let appID := mkResolvedAppID "backend.prod" "prod" "backend" in
  (run (getRemoteProxyAddress peer_off s "10.0.0.5:3500" "backend" "prod") 1).1
  = Returned (EmptyString, Some "remote proxy is not enabled")
  /\ count_events is_forward
       (trace (run (roundTripRemote peer_off s req appID) 0).2) = 0.
Proof.
  intros s req appID.
  destruct (roundTripRemote_peer_disabled peer_off s req appID
              "10.0.0.5:3500" (Some tt)
              (internalv1pb.mkProxyStatusResponse false 0) 0 1 2 3)
    as (H1 & H2 & _); [reflexivity | reflexivity | reflexivity | reflexivity |].
  split; [exact (f_equal fst H1) | exact H2].
Defined.

(** C1, on the code.  The peer cannot be reached, so discovery fails.  A
    server that has a logger answers with status code 400, not 500, around
    the [ERR_INTERNAL] body; the server [NewProxyServer] builds has no
    logger and panics at the log call before it answers at all. *)
Theorem RoundTrip_discovery_failure_on_code :
  let req := demo_request (header_of ["backend.prod"]) in
  let with_logger :=
    demo_server None (Some "connection refused") (Some proxyLogger) in
  let as_built :=
    NewProxyServer demo_config 0 (demo_resolver "10.0.0.5:3500" None)
      (demo_connect (Some "connection refused")) in
  (run (RoundTrip peer_on with_logger req) 0).1
  = Returned
      (Some (http.mkResponse 400 {[ "Content-Type" := ["application/json"] ]}
               (demo_json_Marshal
                  (daprhttp.NewErrorResponse "ERR_INTERNAL" "DERP"))),
       None)
  /\ (run (RoundTrip peer_on as_built req) 0).1
     = Panicked "invalid memory address or nil pointer dereference".
Proof. split; reflexivity. Qed.

(** C7, on the code.  A request without the header, on the server that
    [NewProxyServer] builds: the run panics at the log call, before the 400
    response is built; nothing outside was called.  On a server that has a
    logger the same request is answered with status 400 and the
    [ERR_MISSING_APPID] body, again without any call outside. *)
Theorem RoundTrip_missing_header_on_code :
  let as_built :=
    NewProxyServer demo_config 0 (demo_resolver "10.0.0.5:3500" None)
      (demo_connect None) in
  let with_logger := demo_server None None (Some proxyLogger) in
  run (RoundTrip peer_on as_built (demo_request ∅)) 0
  = (Panicked "invalid memory address or nil pointer dereference",
     mkRunState 0 [])
  /\ (run (RoundTrip peer_on with_logger (demo_request ∅)) 0).1
     = Returned
         (Some (http.mkResponse 400 {[ "Content-Type" := ["application/json"] ]}
                  (demo_json_Marshal
                     (daprhttp.NewErrorResponse "ERR_MISSING_APPID"
                        "the appid must be specified using the Destination-App-Id header"))),
          None)
  /\ count_events is_network_call
       (trace (run (RoundTrip peer_on with_logger (demo_request ∅)) 0).2) = 0.
Proof. repeat split; reflexivity. Qed.

(** Two values under the header are refused the same way. *)
Example RoundTrip_two_values :
  let s := demo_server None None (Some proxyLogger) in
  let req := demo_request (header_of ["a"; "b"]) in
  http.StatusCode <$> (match (run (RoundTrip peer_on s req) 0).1 with
                       | Returned (r, _) => r
                       | Panicked _ => None
                       end) = Some 400%Z
  /\ trace (run (RoundTrip peer_on s req) 0).2
     = [EvLog "debug" "request did not contain Destination-App-Id header"].
Proof. split; reflexivity. Qed.

(** * Further properties of the package *)

(** ** util.go *)

Lemma strings_Count_app_sep (sep : ascii) (a b : string) :
  strings_Count (a +:+ String sep b) sep
  = S (strings_Count a sep + strings_Count b sep).
Proof.
  rewrite strings_Count_app.
  change (strings_Count (String sep b) sep)
    with (if Ascii.eqb sep sep then S (strings_Count b sep)
          else strings_Count b sep).
  rewrite Ascii.eqb_refl. lia.
Qed.

(** The three outcomes of the parser, by the number of dots. *)
Lemma resolveTargetAppID_cases (ns raw : string) :
  (strings_Count raw "." = 0
   /\ resolveTargetAppID ns raw = (mkResolvedAppID raw ns raw, None))
  \/ (exists a b,
        raw = a +:+ "." +:+ b
        /\ strings_Count a "." = 0 /\ strings_Count b "." = 0
        /\ resolveTargetAppID ns raw = (mkResolvedAppID raw b a, None))
  \/ (2 <= strings_Count raw "."
      /\ resolveTargetAppID ns raw
         = (resolvedAppID_zero, Some ("invalid app id " +:+ raw))).
Proof.
  destruct (strings_Count raw ".") as [|[|n]] eqn:Hn.
  - left. split; [reflexivity|]. unfold resolveTargetAppID.
    by rewrite (strings_Split_no_sep _ _ Hn).
  - right; left.
    destruct (strings_Count_pos_split "." raw) as (a & b & Hraw & Ha & Hb);
      [lia|].
    rewrite Hn in Hb. injection Hb as Hb. symmetry in Hb.
    exists a, b. repeat split; try done.
    unfold resolveTargetAppID. rewrite Hraw at 1.
    by rewrite (strings_Split_app _ _ _ Ha), (strings_Split_no_sep _ _ Hb).
  - right; right. split; [lia|]. unfold resolveTargetAppID.
    pose proof (strings_Split_length "." raw) as Hlen. rewrite Hn in Hlen.
    destruct (strings_Split raw ".") as [|x [|y [|z l]]]; simpl in Hlen;
      try lia; reflexivity.
Qed.

(** X1. A successful parse can be undone: [Original] is the raw string, the
    identity never contains a dot, and the raw string is either the
    identity alone (the namespace then being the caller's) or
    [identity.namespace] with a dot-free namespace. *)
Theorem resolveTargetAppID_success_shape (ns raw : string) (r : resolvedAppID) :
  resolveTargetAppID ns raw = (r, None) ->
  Original r = raw
  /\ strings_Count (AppID r) "." = 0
  /\ ((raw = AppID r /\ Namespace r = ns)
      \/ (raw = AppID r +:+ "." +:+ Namespace r
          /\ strings_Count (Namespace r) "." = 0)).
Proof.
  intros H.
  destruct (resolveTargetAppID_cases ns raw)
    as [[Hc He]|[(a & b & Hraw & Ha & Hb & He)|[_ He]]];
    rewrite He in H; [| |discriminate].
  - injection H as <-. cbn. auto.
  - injection H as <-. cbn. auto.
Qed.

Lemma resolveTargetAppID_success_shape_witness :
  Original (mkResolvedAppID "backend.prod" "prod" "backend") = "backend.prod"
  /\ strings_Count "backend" "." = 0
  /\ (("backend.prod" = "backend" /\ "prod" = "default")
      \/ ("backend.prod" = "backend" +:+ "." +:+ "prod"
          /\ strings_Count "prod" "." = 0)).
Proof.
  apply (resolveTargetAppID_success_shape "default" "backend.prod"
           (mkResolvedAppID "backend.prod" "prod" "backend")).
  reflexivity.
Defined.

(** X2. The caller's namespace matters only for an identity without a dot:
    for a raw string with a dot in it the result, parse or error, is the
    same under any two namespaces. *)
Theorem resolveTargetAppID_namespace_unused (ns1 ns2 raw : string) :
  1 <= strings_Count raw "." ->
  resolveTargetAppID ns1 raw = resolveTargetAppID ns2 raw.
Proof.
  intros H. unfold resolveTargetAppID.
  pose proof (strings_Split_length "." raw) as Hlen.
  destruct (strings_Split raw ".") as [|x [|y [|z l]]]; simpl in Hlen;
    try lia; reflexivity.
Qed.

Lemma resolveTargetAppID_namespace_unused_witness :
  resolveTargetAppID "default" "backend.prod"
  = resolveTargetAppID "staging" "backend.prod".
Proof.
  apply (resolveTargetAppID_namespace_unused "default" "staging" "backend.prod").
  simpl. lia.
Defined.

(** X3. The parser does not look inside the segments: a trailing dot gives
    an empty namespace and a leading dot an empty identity, both without
    an error. *)
Theorem resolveTargetAppID_empty_segment (ns a : string) :
  strings_Count a "." = 0 ->
  resolveTargetAppID ns (a +:+ ".")
    = (mkResolvedAppID (a +:+ ".") EmptyString a, None)
  /\ resolveTargetAppID ns ("." +:+ a)
     = (mkResolvedAppID ("." +:+ a) a EmptyString, None).
Proof.
  intros Ha. unfold resolveTargetAppID. split.
  - by rewrite (strings_Split_app "." a EmptyString Ha).
  - change (strings_Split ("." +:+ a) ".")
      with (EmptyString :: strings_Split a ".").
    by rewrite (strings_Split_no_sep _ _ Ha).
Qed.

Lemma resolveTargetAppID_empty_segment_witness :
  resolveTargetAppID "default" "backend."
    = (mkResolvedAppID "backend." EmptyString "backend", None)
  /\ resolveTargetAppID "default" ".backend"
     = (mkResolvedAppID ".backend" "backend" EmptyString, None).
Proof.
  apply (resolveTargetAppID_empty_segment "default" "backend"). reflexivity.
Defined.

(** ** status.go *)

(** X4. The last writer wins: after any sequence of [SetStatus] calls a
    [Status] call returns the status of the last one, and the status the
    monitor had before when there was none. *)
Theorem Status_last_SetStatus (m : statusMonitor) (sts : list ServerStatus) :
  Status (foldl SetStatus m sts) = default (Status m) (last sts).
Proof.
  revert m. induction sts as [|st sts IH]; intros m; [reflexivity|].
  cbn [foldl]. rewrite IH. destruct sts as [|st' sts]; [reflexivity|].
  rewrite last_cons_cons.
  destruct (last (st' :: sts)) eqn:Hl; [reflexivity|].
  by apply last_None in Hl.
Qed.

(** ** pool.go *)

Lemma pool_Get_dom (addr : string) (ap : addressProcessor) (ps : PoolStore) :
  dom (pool_map (pool_Get addr ap ps).2) = {[addr]} ∪ dom (pool_map ps).
Proof.
  destruct (pool_map ps !! addr) as [t|] eqn:Hl.
  - rewrite (pool_Get_hit _ _ _ _ Hl). unfold pool_map at 1. cbn.
    apply (elem_of_dom_2 (D := gset string)) in Hl. set_solver.
  - rewrite (pool_Get_miss _ _ _ Hl). unfold pool_map at 1. cbn.
    by rewrite dom_insert_L.
Qed.

Lemma pool_Get_size (addr : string) (ap : addressProcessor) (ps : PoolStore) :
  length (heap ps) = size (pool_map ps) ->
  length (heap (pool_Get addr ap ps).2) = size (pool_map (pool_Get addr ap ps).2).
Proof.
  intros H. destruct (pool_map ps !! addr) as [t|] eqn:Hl.
  - by rewrite (pool_Get_hit _ _ _ _ Hl).
  - rewrite (pool_Get_miss _ _ _ Hl). unfold pool_map at 2. cbn.
    rewrite length_app, (map_size_insert_None _ _ _ Hl). cbn. lia.
Qed.

Lemma pool_Gets_dom_size (calls : list (string * addressProcessor))
    (ps : PoolStore) :
  length (heap ps) = size (pool_map ps) ->
  dom (pool_map (pool_Gets calls ps)) = list_to_set calls.*1 ∪ dom (pool_map ps)
  /\ length (heap (pool_Gets calls ps)) = size (pool_map (pool_Gets calls ps)).
Proof.
  revert ps. induction calls as [|[a ap] calls IH]; intros ps H; cbn.
  - split; [set_solver|done].
  - destruct (IH (pool_Get a ap ps).2 (pool_Get_size a ap ps H)) as [Hd Hs].
    split; [|done]. rewrite Hd, pool_Get_dom. set_solver.
Qed.

(** X5. The pool holds one transport for each distinct address it has been
    asked for, and nothing else: after any sequence of [Get] calls on the
    zero pool the keys of the map are the addresses requested, and the
    number of transports allocated is the number of distinct addresses. *)
Theorem pool_Gets_one_per_address (calls : list (string * addressProcessor)) :
  let ps := pool_Gets calls PoolStore_zero in
  dom (pool_map ps) = list_to_set calls.*1
  /\ length (heap ps) = size (list_to_set calls.*1 : gset string).
Proof.
  intros ps. destruct (pool_Gets_dom_size calls PoolStore_zero) as [Hd Hs].
  { reflexivity. }
  fold ps in Hd, Hs.
  assert (Hdom : dom (pool_map ps) = list_to_set calls.*1).
  { rewrite Hd. unfold pool_map. cbn. set_solver. }
  split; [exact Hdom|]. by rewrite Hs, <- Hdom, size_dom.
Qed.

(** X6. Different addresses get different transports: in a store built by
    [Get] calls, a [Get] of one address and a later [Get] of another never
    return the same pointer. *)
Theorem pool_Get_distinct_addresses
    (history between : list (string * addressProcessor))
    (a1 a2 : string) (r1 r2 : addressProcessor) :
  a1 ≠ a2 ->
  let s0 := pool_Gets history PoolStore_zero in
  let g1 := pool_Get a1 r1 s0 in
  let g2 := pool_Get a2 r2 (pool_Gets between g1.2) in
  g1.1.1 ≠ g2.1.1.
Proof.
  intros Hne s0 g1 g2 Heq.
  assert (Hinv : pool_inv g2.2).
  { apply pool_Get_inv, pool_Gets_inv, pool_Get_inv, pool_Gets_inv,
      pool_inv_zero. }
  destruct (pool_Get_cached a1 r1 s0) as [Hs1 Hc1]. fold g1 in Hs1, Hc1.
  destruct (pool_Gets_keeps between a1 g1.2 g1.1.1 Hs1 Hc1) as [_ Hc1'].
  destruct (pool_Get_keeps a2 a1 r2 _ _ Hc1') as [_ Hk1]. fold g2 in Hk1.
  destruct (pool_Get_cached a2 r2 (pool_Gets between g1.2)) as [_ Hc2].
  fold g2 in Hc2.
  destruct Hinv as [Hm _]. apply Hm in Hk1, Hc2.
  rewrite Heq in Hk1. rewrite Hk1 in Hc2. by injection Hc2.
Qed.

Lemma pool_Get_distinct_addresses_witness :
  let ap : addressProcessor := fun k => (k, None) in
  (pool_Get "host:1" ap PoolStore_zero).1.1
  ≠ (pool_Get "host:2" ap (pool_Get "host:1" ap PoolStore_zero).2).1.1.
Proof.
  intros ap.
  apply (pool_Get_distinct_addresses [] [] "host:1" "host:2" ap ap).
  discriminate.
Defined.

(** X7. The transport [Get] returns for an address dials that address: on
    whatever network and for whatever address it is asked to dial, the
    dial goes to the key it was made for. *)
Theorem pool_Get_dials_key (history : list (string * addressProcessor))
    (addr : string) (r : addressProcessor) (network given : string) :
  let g := pool_Get addr r (pool_Gets history PoolStore_zero) in
  (fun T => DialContext T network given) <$> heap g.2 !! g.1.1
  = Some (network, addr).
Proof.
  intros g.
  assert (Hinv : pool_inv g.2).
  { apply pool_Get_inv, pool_Gets_inv, pool_inv_zero. }
  destruct (pool_Get_cached addr r (pool_Gets history PoolStore_zero))
    as [_ Hc]. fold g in Hc.
  destruct Hinv as [Hm _]. by rewrite (Hm _ _ Hc).
Qed.

(** ** StartNonBlocking *)





(** ** The round-tripper, path by path *)

Section DispatcherPaths.
Context {W Conn : Type} (E : Env W Conn).
Implicit Types (s : server W Conn) (req : http.Request) (w : W).

Local Ltac run_path :=
  unfold run, roundTripRemote, getRemoteProxyAddress, forward, logger_log,
    bind, call, emit, panic, ret; cbn.

(** X9. The errors of the two calls that discovery makes are handed back as
    they are, with an empty address: an error of the connection creator
    ends discovery before any status query, an error of the status query
    ends it after the one query. *)
Theorem getRemoteProxyAddress_error_passthrough s
    (addr appID namespace e : string) (conn : option Conn)
    (pst : internalv1pb.ProxyStatusResponse) (w w1 w2 : W) :
  let sreq := internalv1pb.mkProxyStatusRequest internalv1pb.APIVersion_V1 in
  (connectionCreatorFn s addr appID namespace false false false w
     = ((conn, Some e), w1) ->
   run (getRemoteProxyAddress E s addr appID namespace) w
   = (Returned (EmptyString, Some e),
      mkRunState w1 [EvConnect addr appID namespace false false false]))
  /\ (connectionCreatorFn s addr appID namespace false false false w
        = ((conn, None), w1) ->
      GetProxyStatus E conn sreq w1 = ((pst, Some e), w2) ->
      run (getRemoteProxyAddress E s addr appID namespace) w
      = (Returned (EmptyString, Some e),
         mkRunState w2 [EvConnect addr appID namespace false false false;
                        EvGetProxyStatus sreq])).
Proof.
  intros sreq. split.
  - intros Hc. run_path. by rewrite Hc.
  - intros Hc Hs. run_path. rewrite Hc. cbn. fold sreq. by rewrite Hs.
Qed.

(** X10. An address without a colon is one segment, and that segment is
    the one replaced: discovery on it returns the port the peer reported
    and nothing of the address. *)
Theorem getRemoteProxyAddress_no_colon s (addr appID namespace : string)
    (conn : option Conn) (pst : internalv1pb.ProxyStatusResponse)
    (w w1 w2 : W) :
  let sreq := internalv1pb.mkProxyStatusRequest internalv1pb.APIVersion_V1 in
  strings_Count addr ":" = 0 ->
  connectionCreatorFn s addr appID namespace false false false w
    = ((conn, None), w1) ->
  GetProxyStatus E conn sreq w1 = ((pst, None), w2) ->
  internalv1pb.Enabled pst = true ->
  (run (getRemoteProxyAddress E s addr appID namespace) w).1
  = Returned (fmt_d (internalv1pb.Port pst), None).
Proof.
  intros sreq Ha Hc Hs Hen. run_path. rewrite Hc. cbn. fold sreq.
  rewrite Hs. cbn. rewrite Hen. cbn.
  by rewrite (strings_Split_no_sep _ _ Ha).
Qed.

(** X11. Discovery always returns: it does not panic, its index into the
    segments is in range, it records a connect first and at most a status
    query after it, and whenever it returns an error the address it
    returns is empty. *)
Theorem getRemoteProxyAddress_returns s (addr appID namespace : string)
    (st : RunState W) :
  length (strings_Split addr ":") - 1 < length (strings_Split addr ":")
  /\ exists (res : string * error) (w' : W) (evs : list Event),
       getRemoteProxyAddress E s addr appID namespace st
       = (Returned res,
          mkRunState w'
            (trace st ++ EvConnect addr appID namespace false false false :: evs))
       /\ (evs = []
           \/ evs = [EvGetProxyStatus
                       (internalv1pb.mkProxyStatusRequest
                          internalv1pb.APIVersion_V1)])
       /\ (res.2 = None \/ res.1 = EmptyString).
Proof.
  split.
  { pose proof (strings_Split_length ":" addr). lia. }
  unfold getRemoteProxyAddress, bind, call, ret. cbn.
  destruct (connectionCreatorFn s addr appID namespace false false false
              (world st)) as [[conn [e|]] w1]; cbn.
  { exists (EmptyString, Some e), w1, []. auto. }
  destruct (GetProxyStatus E conn _ w1) as [[pst [e|]] w2]; cbn.
  { eexists (_, _), w2, [_]. rewrite <- app_assoc. cbn. auto. }
  destruct (internalv1pb.Enabled pst); cbn;
    eexists (_, _), w2, [_]; rewrite <- app_assoc; cbn; auto.
Qed.

(** X12. A header value with two or more dots, on a server that has a
    logger: the answer is the response of [respondWithError] for
    [ERR_MISSING_APPID] with the message naming the value, status code 400
    and a nil error; the world is untouched and nothing but the log line is
    recorded. *)
Theorem RoundTrip_invalid_appid s req (h : string) (lg : Logger) w :
  http.Header req !! "Destination-App-Id" = Some [h] ->
  2 <= strings_Count h "." ->
  logger s = Some lg ->
  run (RoundTrip E s req) w
  = (Returned
       (Some (http.mkResponse 400 {[ "Content-Type" := ["application/json"] ]}
                (json_Marshal E
                   (daprhttp.NewErrorResponse "ERR_MISSING_APPID"
                      ("the appid " +:+ h +:+ " is invalid")))),
        None),
     mkRunState w
       [EvLog "debug"
          ("request contained invalid Destination-App-Id header: " +:+ h)]).
Proof.
  intros Hh Hd Hlg. unfold run, RoundTrip. rewrite Hh. cbn.
  destruct (String.eqb h EmptyString) eqn:He.
  { exfalso. apply String.eqb_eq in He. subst h. cbn in Hd. lia. }
  destruct (resolveTargetAppID_cases (Config.Namespace (config s)) h)
    as [[Hc _]|[(a & b & -> & Ha & Hb & _)|[_ Hp]]].
  - exfalso. lia.
  - exfalso. change (a +:+ "." +:+ b) with (a +:+ String "." b) in Hd.
    rewrite strings_Count_app_sep in Hd. lia.
  - rewrite Hp. unfold bind, logger_log, emit, ret. by rewrite Hlg.
Qed.

(** X13. When name resolution fails, on a server that has a logger: the
    answer is the response of [respondWithError] for
    [ERR_UNRESOLVED_APPID] with the message naming the original header
    value, status code 400 and a nil error, and after the one resolve call
    nothing else is called. *)
Theorem roundTripRemote_unresolved s req (appID : resolvedAppID)
    (a e : string) (lg : Logger) (w w1 : W) :
  let rreq := nr.mkResolveRequest (AppID appID) (Namespace appID)
                (Config.ProxyPort (config s)) in
  resolver s rreq w = ((a, Some e), w1) ->
  logger s = Some lg ->
  run (roundTripRemote E s req appID) w
  = (Returned
       (Some (http.mkResponse 400 {[ "Content-Type" := ["application/json"] ]}
                (json_Marshal E
                   (daprhttp.NewErrorResponse "ERR_UNRESOLVED_APPID"
                      ("the appid " +:+ Original appID
                         +:+ " cannot be resolved to a destination")))),
        None),
     mkRunState w1
       [EvResolve rreq;
        EvLog "debug"
          ("request destination app-id could not be resolved: "
             +:+ Original appID)]).
Proof.
  intros rreq Hr Hlg. run_path. fold rreq. rewrite Hr. cbn. by rewrite Hlg.
Qed.

(** X14. The remote path end to end: when resolution gives [host:port],
    the channel opens and the peer reports itself enabled, the request is
    forwarded once with scheme [http] and host [host:<reported port>], and
    what the transport returns, response or error, is returned as it is. *)
Theorem roundTripRemote_forwards s req (appID : resolvedAppID)
    (host port : string) (conn : option Conn)
    (pst : internalv1pb.ProxyStatusResponse) (w w1 w2 w3 : W) :
  let rreq := nr.mkResolveRequest (AppID appID) (Namespace appID)
                (Config.ProxyPort (config s)) in
  let sreq := internalv1pb.mkProxyStatusRequest internalv1pb.APIVersion_V1 in
  let addr := host +:+ ":" +:+ port in
  let req' := set_target req "http"
                (host +:+ ":" +:+ fmt_d (internalv1pb.Port pst)) in
  strings_Count port ":" = 0 ->
  resolver s rreq w = ((addr, None), w1) ->
  connectionCreatorFn s addr (AppID appID) (Namespace appID) false false false w1
    = ((conn, None), w2) ->
  GetProxyStatus E conn sreq w2 = ((pst, None), w3) ->
  internalv1pb.Enabled pst = true ->
  run (roundTripRemote E s req appID) w
  = (Returned (DefaultTransport_RoundTrip E req' w3).1,
     mkRunState (DefaultTransport_RoundTrip E req' w3).2
       [EvResolve rreq;
        EvConnect addr (AppID appID) (Namespace appID) false false false;
        EvGetProxyStatus sreq;
        EvForward req']).
Proof.
  intros rreq sreq addr req' Hp Hr Hc Hs Hen. run_path. fold rreq.
  rewrite Hr. cbn. fold addr. rewrite Hc. cbn. fold sreq. rewrite Hs. cbn.
  rewrite Hen. cbn.
  assert (Hrl : strings_Join
                  (<[length (strings_Split addr ":") - 1
                     := fmt_d (internalv1pb.Port pst)]>
                     (strings_Split addr ":")) ":"
                = host +:+ ":" +:+ fmt_d (internalv1pb.Port pst))
    by exact (strings_replace_last ":" host port _ Hp).
  rewrite Hrl. fold req'.
  by destruct (DefaultTransport_RoundTrip E req' w3).
Qed.

End DispatcherPaths.

(** ** The round-tripper, all runs *)

Lemma count_events_app (k : Event -> bool) (l1 l2 : list Event) :
  count_events k (l1 ++ l2) = count_events k l1 + count_events k l2.
Proof. unfold count_events. by rewrite List.filter_app, length_app. Qed.

Lemma count_events_zero (k : Event -> bool) (l : list Event) (e : Event) :
  count_events k l = 0 -> e ∈ l -> k e = false.
Proof.
  unfold count_events. induction l as [|x l IH]; cbn; intros H He.
  - by apply elem_of_nil in He.
  - destruct (k x) eqn:Hx; [discriminate|].
    apply elem_of_cons in He as [->|He]; auto.
Qed.

(** The header either fails the test of [RoundTrip] or holds one non-empty
    value. *)
Lemma header_cases (req : http.Request) :
  header_unusable req
  \/ exists h, http.Header req !! "Destination-App-Id" = Some [h]
               /\ h ≠ EmptyString.
Proof.
  unfold header_unusable. cbv zeta.
  destruct (http.Header req !! "Destination-App-Id") as [[|h [|h' l]]|].
  - auto.
  - destruct (String.eqb_spec h EmptyString) as [->|Hne]; eauto 6.
  - left; right; right; right. eexists. split; [reflexivity|]. cbn. lia.
  - auto.
Qed.

Section DispatcherRuns.
Context {W Conn : Type} (E : Env W Conn).
Implicit Types (s : server W Conn) (req : http.Request) (w : W).

Lemma roundTripRemote_outcome s req (appID : resolvedAppID) w :
  let rreq := nr.mkResolveRequest (AppID appID) (Namespace appID)
                (Config.ProxyPort (config s)) in
  let out := run (roundTripRemote E s req appID) w in
  (exists pre, forwarded E req (EvResolve rreq :: pre) out
               /\ count_events is_forward pre = 0)
  \/ rejected E s out.
Proof.
  intros rreq out. subst out. unfold forwarded, rejected.
  unfold run, roundTripRemote, getRemoteProxyAddress, forward, logger_log,
    bind, call, emit, panic, ret; cbn. fold rreq.
  destruct (resolver s rreq w) as [[addr [e|]] w1]; cbn.
  { right. destruct (logger s); cbn; eauto. }
  destruct (connectionCreatorFn s addr (AppID appID) (Namespace appID)
              false false false w1) as [[conn [e|]] w2]; cbn.
  { right. destruct (logger s); cbn; eauto. }
  destruct (GetProxyStatus E conn _ w2) as [[pst [e|]] w3]; cbn.
  { right. destruct (logger s); cbn; eauto. }
  destruct (internalv1pb.Enabled pst); cbn.
  - left. set (host := strings_Join _ _).
    exists [EvConnect addr (AppID appID) (Namespace appID) false false false;
            EvGetProxyStatus
              (internalv1pb.mkProxyStatusRequest internalv1pb.APIVersion_V1)].
    split; [|reflexivity]. exists host, w3. cbn.
    by destruct (DefaultTransport_RoundTrip E (set_target req "http" host) w3).
  - right. destruct (logger s); cbn; eauto.
Qed.

Lemma RoundTrip_outcome s req w :
  let out := run (RoundTrip E s req) w in
  (exists pre, forwarded E req pre out /\ count_events is_forward pre = 0)
  \/ rejected E s out.
Proof.
  intros out. subst out.
  destruct (header_cases req) as [Hbad|(h & Hh & Hne)].
  { right. unfold rejected. destruct (logger s) as [lg|] eqn:Hlg.
    - rewrite (RoundTrip_header_unusable E s req lg w Hbad Hlg). cbn.
      split; [reflexivity|]. by eexists 400%Z, _.
    - rewrite (RoundTrip_header_unusable_nil_logger E s req w Hbad Hlg). cbn.
      eauto. }
  destruct (resolveTargetAppID (Config.Namespace (config s)) h)
    as [appID [e|]] eqn:Hp.
  { right. unfold rejected, run, RoundTrip. rewrite Hh. cbn.
    destruct (String.eqb_spec h EmptyString) as [->|_]; [done|].
    rewrite Hp. unfold bind, logger_log, emit, panic, ret.
    destruct (logger s); cbn; eauto. }
  rewrite (RoundTrip_dispatch E s req h appID Hh Hne Hp).
  destruct (_ && _).
  - left. exists []. split; [|reflexivity].
    unfold forwarded, run, roundTripLocal, forward, call. cbn.
    exists ("localhost:" +:+ fmt_d (Config.ApplicationPort (config s))), w.
    cbn. by destruct (DefaultTransport_RoundTrip E _ w).
  - destruct (roundTripRemote_outcome s req appID w) as [(pre & H & Hc)|H];
      eauto.
Qed.

(** X16. Whenever [RoundTrip] returns without having forwarded the request,
    the error it returns is nil and the response it returns has status
    code 400 and the single header [Content-Type: application/json]: no
    other status code is ever produced by the server itself. *)
Theorem RoundTrip_rejection_is_400 s req w
    (r : option http.Response) (e : error) :
  count_events is_forward (trace (run (RoundTrip E s req) w).2) = 0 ->
  (run (RoundTrip E s req) w).1 = Returned (r, e) ->
  e = None
  /\ exists resp,
       r = Some resp
       /\ http.StatusCode resp = 400%Z
       /\ http.RespHeader resp = {[ "Content-Type" := ["application/json"] ]}.
Proof.
  intros Hc Hr.
  destruct (RoundTrip_outcome s req w) as [(pre & (host & wpre & H) & _)|[_ H]].
  - exfalso. rewrite H in Hc. cbn [fst snd trace] in Hc.
    rewrite count_events_app in Hc. cbn in Hc. lia.
  - destruct (logger s).
    + destruct H as (code & e' & H). rewrite H in Hr. injection Hr as <- <-.
      split; [reflexivity|]. eexists. split; [reflexivity|]. by cbn.
    + destruct H as (msg & H). rewrite H in Hr. discriminate.
Qed.

(** X17. A run of [RoundTrip] forwards at most once, the forward is the
    last thing it does, and the request it forwards is the inbound one
    with scheme [http] and a new host: method, headers (the
    [Destination-App-Id] header included), body, path and query are
    unchanged. *)
Theorem RoundTrip_forwards_once_faithfully s req w :
  let tr := trace (run (RoundTrip E s req) w).2 in
  count_events is_forward tr <= 1
  /\ forall req', EvForward req' ∈ tr ->
       last tr = Some (EvForward req')
       /\ url.Scheme (http.URL req') = "http"
       /\ url.Path (http.URL req') = url.Path (http.URL req)
       /\ url.RawQuery (http.URL req') = url.RawQuery (http.URL req)
       /\ http.Method req' = http.Method req
       /\ http.Header req' = http.Header req
       /\ http.Body req' = http.Body req.
Proof.
  intros tr. subst tr.
  destruct (RoundTrip_outcome s req w) as [(pre & (host & wpre & H) & Hp)|[Hc _]].
  - rewrite H. cbn [fst snd trace]. rewrite count_events_app, Hp. cbn.
    split; [lia|].
    intros req' Hin. apply elem_of_app in Hin as [Hin|Hin].
    + apply (count_events_zero _ _ _ Hp) in Hin. discriminate.
    + apply list_elem_of_singleton in Hin. injection Hin as ->.
      rewrite last_snoc. repeat split.
  - split; [lia|]. intros req' Hin.
    apply (count_events_zero _ _ _ Hc) in Hin. discriminate.
Qed.

(** X18. The server as [NewProxyServer] builds it, without a logger, never
    answers a request itself: its run returns exactly when the request was
    forwarded, and every run that is not forwarded panics. *)
Theorem RoundTrip_nil_logger_returns_iff_forwarded s req w :
  logger s = None ->
  (exists r, (run (RoundTrip E s req) w).1 = Returned r)
  <-> count_events is_forward (trace (run (RoundTrip E s req) w).2) = 1.
Proof.
  intros Hlg.
  destruct (RoundTrip_outcome s req w) as [(pre & (host & wpre & H) & Hp)|[Hc H]].
  - rewrite H. cbn [fst snd trace]. rewrite count_events_app, Hp. cbn.
    split; eauto.
  - rewrite Hlg in H. destruct H as (msg & H). rewrite H, Hc.
    split; [intros [r Hr]; discriminate|discriminate].
Qed.

End DispatcherRuns.

(** ** Which requests go to the local application *)

Section LocalRoute.
Context {W Conn : Type} (E : Env W Conn).
Implicit Types (s : server W Conn) (req : http.Request) (w : W).

(** The remote path and the two refusals never leave a trace that is a
    single forward. *)
Lemma roundTripRemote_not_single_forward s req (appID : resolvedAppID) w
    (req' : http.Request) :
  trace (run (roundTripRemote E s req appID) w).2 ≠ [EvForward req'].
Proof.
  destruct (roundTripRemote_outcome E s req appID w)
    as [(pre & (host & wpre & H) & _)|[Hc _]].
  - rewrite H. cbn. destruct pre; discriminate.
  - intros Heq. rewrite Heq in Hc. discriminate.
Qed.

(** X19. With an identity and a namespace configured that contain no dot,
    a request with a single non-empty header value is sent straight to the
    local application (one forward to [localhost:<ApplicationPort>],
    nothing resolved) exactly when the value is the server's own identity,
    bare or followed by a dot and its own namespace. *)
Theorem RoundTrip_local_iff s req (h : string) w :
  http.Header req !! "Destination-App-Id" = Some [h] ->
  h ≠ EmptyString ->
  strings_Count (Config.AppID (config s)) "." = 0 ->
  strings_Count (Config.Namespace (config s)) "." = 0 ->
  trace (run (RoundTrip E s req) w).2
    = [EvForward (set_target req "http"
                    ("localhost:" +:+ fmt_d (Config.ApplicationPort (config s))))]
  <-> (h = Config.AppID (config s)
       \/ h = Config.AppID (config s) +:+ "." +:+ Config.Namespace (config s)).
Proof.
  intros Hh Hne Hid Hns.
  assert (Hlocal : forall appID,
             resolveTargetAppID (Config.Namespace (config s)) h = (appID, None) ->
             (trace (run (RoundTrip E s req) w).2
              = [EvForward (set_target req "http"
                   ("localhost:" +:+ fmt_d (Config.ApplicationPort (config s))))]
              <-> (AppID appID = Config.AppID (config s)
                   /\ Namespace appID = Config.Namespace (config s)))).
  { intros appID Hp. rewrite (RoundTrip_dispatch E s req h appID Hh Hne Hp).
    destruct (String.eqb_spec (AppID appID) (Config.AppID (config s)))
      as [H1|H1];
      destruct (String.eqb_spec (Namespace appID) (Config.Namespace (config s)))
        as [H2|H2]; cbn.
    - split; [done|]. intros _.
      unfold run, roundTripLocal, forward, call. cbn.
      by destruct (DefaultTransport_RoundTrip E _ w).
    - split; [|by intros [_ ?]]. intros H.
      by apply roundTripRemote_not_single_forward in H.
    - split; [|by intros [? _]]. intros H.
      by apply roundTripRemote_not_single_forward in H.
    - split; [|by intros [? _]]. intros H.
      by apply roundTripRemote_not_single_forward in H. }
  destruct (resolveTargetAppID_cases (Config.Namespace (config s)) h)
    as [[Hc Hp]|[(a & b & Hab & Ha & Hb & Hp)|[Hc Hp]]].
  - rewrite (Hlocal _ Hp). cbn. split.
    + intros [H _]. by left.
    + intros [H|H]; [done|]. exfalso.
      rewrite H in Hc.
      change (_ +:+ "." +:+ ?n) with (Config.AppID (config s) +:+ String "." n)
        in Hc.
      rewrite strings_Count_app_sep in Hc. lia.
  - rewrite (Hlocal _ Hp). cbn. split.
    + intros [-> ->]. by right.
    + intros [H|H].
      * exfalso. rewrite Hab in H. rewrite <- H in Hid.
        change (a +:+ "." +:+ b) with (a +:+ String "." b) in Hid.
        rewrite strings_Count_app_sep in Hid. lia.
      * rewrite Hab in H.
        apply (f_equal (fun x => strings_Split x ".")) in H.
        change (a +:+ "." +:+ b) with (a +:+ String "." b) in H.
        change (_ +:+ "." +:+ ?n)
          with (Config.AppID (config s) +:+ String "." n) in H.
        rewrite (strings_Split_app _ _ _ Ha), (strings_Split_app _ _ _ Hid),
          (strings_Split_no_sep _ _ Hb), (strings_Split_no_sep _ _ Hns) in H.
        by injection H.
  - split.
    + intros H. exfalso. revert H. unfold run, RoundTrip. rewrite Hh. cbn.
      destruct (String.eqb_spec h EmptyString) as [->|_]; [done|].
      rewrite Hp. unfold bind, logger_log, emit, panic, ret.
      destruct (logger s); discriminate.
    + intros [H|H]; exfalso; rewrite H in Hc.
      * lia.
      * change (_ +:+ "." +:+ ?n)
          with (Config.AppID (config s) +:+ String "." n) in Hc.
        rewrite strings_Count_app_sep in Hc. lia.
Qed.

End LocalRoute.

(** ** Concrete runs of the further properties *)

Lemma getRemoteProxyAddress_error_passthrough_witness :
  run (getRemoteProxyAddress peer_on
         (demo_server None (Some "connection refused") None)
         "10.0.0.5:3500" "backend" "prod") 0
  = (Returned (EmptyString, Some "connection refused"),
     mkRunState 1 [EvConnect "10.0.0.5:3500" "backend" "prod" false false false])
  /\ (run (getRemoteProxyAddress
             (demo_peer (internalv1pb.mkProxyStatusResponse false 0)
                        (Some "unavailable"))
             (demo_server None None None)
             "10.0.0.5:3500" "backend" "prod") 0).1
     = Returned (EmptyString, Some "unavailable").
Proof.
  split.
  - apply (getRemoteProxyAddress_error_passthrough peer_on
             (demo_server None (Some "connection refused") None)
             "10.0.0.5:3500" "backend" "prod" "connection refused" None
             (internalv1pb.mkProxyStatusResponse true 9000) 0 1 2).
    reflexivity.
  - pose proof (getRemoteProxyAddress_error_passthrough
                  (demo_peer (internalv1pb.mkProxyStatusResponse false 0)
                             (Some "unavailable"))
                  (demo_server None None None)
                  "10.0.0.5:3500" "backend" "prod" "unavailable" (Some tt)
                  (internalv1pb.mkProxyStatusResponse false 0) 0 1 2) as [_ H].
    exact (f_equal fst (H eq_refl eq_refl)).
Defined.

Lemma getRemoteProxyAddress_no_colon_witness :
  (run (getRemoteProxyAddress peer_on (demo_server None None None)
          "peer" "backend" "prod") 0).1
  = Returned ("9000", None).
Proof.
  apply (getRemoteProxyAddress_no_colon peer_on (demo_server None None None)
           "peer" "backend" "prod" (Some tt)
           (internalv1pb.mkProxyStatusResponse true 9000) 0 1 2);
    reflexivity.
Defined.

Lemma RoundTrip_invalid_appid_witness :
  (run (RoundTrip peer_on (demo_server None None (Some proxyLogger))
          (demo_request (header_of ["a.b.c"]))) 0).1
  = Returned
      (Some (http.mkResponse 400 {[ "Content-Type" := ["application/json"] ]}
               (demo_json_Marshal
                  (daprhttp.NewErrorResponse "ERR_MISSING_APPID"
                     "the appid a.b.c is invalid"))),
       None).
Proof.
  pose proof (RoundTrip_invalid_appid peer_on
                (demo_server None None (Some proxyLogger))
                (demo_request (header_of ["a.b.c"])) "a.b.c" proxyLogger 0)
    as H.
  exact (f_equal fst (H eq_refl ltac:(simpl; lia) eq_refl)).
Defined.

Lemma roundTripRemote_unresolved_witness :
  (run (roundTripRemote peer_on
          (demo_server (Some "not found") None (Some proxyLogger))
          (demo_request (header_of ["backend.prod"]))
          (mkResolvedAppID "backend.prod" "prod" "backend")) 0).1
  = Returned
      (Some (http.mkResponse 400 {[ "Content-Type" := ["application/json"] ]}
               (demo_json_Marshal
                  (daprhttp.NewErrorResponse "ERR_UNRESOLVED_APPID"
                     "the appid backend.prod cannot be resolved to a destination"))),
       None).
Proof.
  pose proof (roundTripRemote_unresolved peer_on
                (demo_server (Some "not found") None (Some proxyLogger))
                (demo_request (header_of ["backend.prod"]))
                (mkResolvedAppID "backend.prod" "prod" "backend")
                "10.0.0.5:3500" "not found" proxyLogger 0 1) as H.
  exact (f_equal fst (H eq_refl eq_refl)).
Defined.

Lemma roundTripRemote_forwards_witness :
  let req := demo_request (header_of ["backend.prod"]) in
  run (roundTripRemote peer_on (demo_server None None None) req
         (mkResolvedAppID "backend.prod" "prod" "backend")) 0
  = (Returned (Some (http.mkResponse 200 ∅ "ok"), None),
     mkRunState 4
       [EvResolve (nr.mkResolveRequest "backend" "prod" 3500);
        EvConnect "10.0.0.5:3500" "backend" "prod" false false false;
        EvGetProxyStatus
          (internalv1pb.mkProxyStatusRequest internalv1pb.APIVersion_V1);
        EvForward (set_target req "http" "10.0.0.5:9000")]).
Proof.
  intros req.
  apply (roundTripRemote_forwards peer_on (demo_server None None None) req
           (mkResolvedAppID "backend.prod" "prod" "backend")
           "10.0.0.5" "3500" (Some tt)
           (internalv1pb.mkProxyStatusResponse true 9000) 0 1 2 3);
    reflexivity.
Defined.

Lemma RoundTrip_rejection_is_400_witness :
  exists resp,
    Some (respondWithError peer_off 500
            (daprhttp.NewErrorResponse "ERR_INTERNAL" "DERP")) = Some resp
    /\ http.StatusCode resp = 400%Z
    /\ http.RespHeader resp = {[ "Content-Type" := ["application/json"] ]}.
Proof.
  apply (RoundTrip_rejection_is_400 peer_off
           (demo_server None None (Some proxyLogger))
           (demo_request (header_of ["backend.prod"])) 0
           (Some (respondWithError peer_off 500
                    (daprhttp.NewErrorResponse "ERR_INTERNAL" "DERP")))
           None);
    reflexivity.
Defined.

Lemma RoundTrip_forwards_once_faithfully_witness :
  let req := demo_request (header_of ["backend.prod"]) in
  let req' := set_target req "http" "10.0.0.5:9000" in
  last (trace (run (RoundTrip peer_on (demo_server None None None) req) 0).2)
    = Some (EvForward req')
  /\ http.Header req' = http.Header req.
Proof.
  intros req req'.
  destruct (RoundTrip_forwards_once_faithfully peer_on
              (demo_server None None None) req 0) as [_ H].
  destruct (H req') as (H1 & _ & _ & _ & _ & H2 & _).
  { do 3 apply list_elem_of_further. apply list_elem_of_here. }
  split; assumption.
Defined.

Lemma RoundTrip_nil_logger_returns_iff_forwarded_witness :
  exists r,
    (run (RoundTrip peer_on (demo_server None None None)
            (demo_request (header_of ["backend.prod"]))) 0).1 = Returned r.
Proof.
  apply (RoundTrip_nil_logger_returns_iff_forwarded peer_on
           (demo_server None None None)
           (demo_request (header_of ["backend.prod"])) 0);
    reflexivity.
Defined.

Lemma RoundTrip_local_iff_witness :
  let req := demo_request (header_of ["frontend.default"]) in
  trace (run (RoundTrip peer_on (demo_server None None None) req) 0).2
  = [EvForward (set_target req "http" "localhost:8080")].
Proof.
  intros req.
  apply (RoundTrip_local_iff peer_on (demo_server None None None) req
           "frontend.default" 0);
    [reflexivity | discriminate | reflexivity | reflexivity |].
  right. reflexivity.
Defined.
